(** * Verification of the procedural terrain atlas (generate_terrain.py)

    A shallow embedding of the texture-atlas generator: the deterministic
    noise primitive, the per-tile pixel generators, the compositor that blits
    16x16 tiles into the atlas, and the fixed manifest that drives them.

    Python integers are unbounded, so they are [Z]; [//], [%], [>>], [^] and
    [&] on Python integers are [Z.div], [Z.modulo], [Z.shiftr], [Z.lxor] and
    [Z.land] (floor semantics, infinite two's complement).  Python floats are
    IEEE binary64, here the kernel's primitive floats.  An operation that can
    raise (list indexing, [int] of a float, [putpixel]) returns [option], and
    code that calls it runs in the option monad: a call that raises is
    [None], with no record of the kind of exception or of the writes made
    before it.  The global [atlas] is an explicit state passed through the
    compositor.

    The file has five parts: the program, the vocabulary of its
    specification, the lemmas, the specified properties, and further
    properties of the code. *)

From Stdlib Require Import ZArith Lia Floats.
#[local] Set Warnings "-inexact-float".
From stdpp Require Import base tactics option list numbers sets.

Local Open Scope Z_scope.

(** ** Python primitives *)

Module Py.

(** [range(n)] *)
Definition range (n : Z) : list Z := seqZ 0 n.

(** [len(l)] *)
Definition len {A} (l : list A) : Z := Z.of_nat (length l).

(** [l[i]]: a negative index counts from the end, an index out of range
    raises IndexError. *)
Definition index {A} (l : list A) (i : Z) : option A :=
  if 0 <=? i then l !! Z.to_nat i
  else if - len l <=? i then l !! Z.to_nat (len l + i)
  else None.

(** [x in l] for a list of integers *)
Definition mem (x : Z) (l : list Z) : bool := existsb (Z.eqb x) l.

(** [for i in l: body], threading the state the body mutates; an exception
    in the body ends the loop. *)
Fixpoint for_each {S} (l : list Z) (body : Z → S → option S) (s : S) :
    option S :=
  match l with
  | [] => Some s
  | i :: l' => s' ← body i s; for_each l' body s'
  end.

(** Conversion of an integer to a float, as in [x - 7.5] or [n ** 0.5].
    Exact for |z| < 2^53; the generators call it below 2^9. *)
Definition float_of_int (z : Z) : float :=
  if z <? 0 then PrimFloat.opp (PrimFloat.of_uint63 (Uint63.of_Z (- z)))
  else PrimFloat.of_uint63 (Uint63.of_Z z).

(** [int(f)]: truncation toward zero; raises on an infinity or a NaN. *)
Definition int_of_float (f : float) : option Z :=
  match Prim2SF f with
  | S754_zero _ => Some 0
  | S754_finite s m e =>
      let mag := if 0 <=? e then Z.shiftl (Z.pos m) e
                 else Z.shiftr (Z.pos m) (- e) in
      Some (if s then - mag else mag)
  | S754_infinity _ | S754_nan => None
  end.

(** [f ** 2] and [f ** 0.5] on floats go through the C library's [pow].
    The square of the operands met here (half-integers below 16) is
    representable, so the product is its value; the square root is taken
    as the IEEE correctly rounded one.  No property below depends on how
    these values round: the float comparisons only select between colors
    that are clamped either way. *)
Definition fsquare (f : float) : float := PrimFloat.mul f f.
Definition fsqrt (f : float) : float := PrimFloat.sqrt f.

End Py.

(** ** Atlas configuration (lines 9-14) *)

Definition TILE_SIZE : Z := 16.
Definition TILES_PER_ROW : Z := 8.
Definition TILE_COUNT : Z := 64.
Definition ATLAS_WIDTH : Z := TILES_PER_ROW * TILE_SIZE.
Definition ATLAS_HEIGHT : Z :=
  ((TILE_COUNT + TILES_PER_ROW - 1) / TILES_PER_ROW) * TILE_SIZE.

(** ** Colors, pixel grids and the image buffer *)

(** A color is the tuple [(r, g, b, a)]. *)
Abbreviation Color := (Z * Z * Z * Z)%type.
(** A generator's output: a list of rows, each a list of colors. *)
Abbreviation PixelGrid := (list (list Color)).
(** The RGBA image: its rows from the top, each a list of pixels. *)
Abbreviation Image := (list (list Color)).

Module Img.

(** [Image.new('RGBA', (w, h), c)] *)
Definition new (w h : Z) (c : Color) : Image :=
  replicate (Z.to_nat h) (replicate (Z.to_nat w) c).

Definition inside (x y : Z) (im : Image) : bool :=
  (0 <=? x) && (0 <=? y) &&
  match im !! Z.to_nat y with
  | Some row => x <? Py.len row
  | None => false
  end.

(** A Python integer fits a signed C integer of [bits] bits. *)
Definition fits (bits v : Z) : bool :=
  (- 2 ^ (bits - 1) <=? v) && (v <? 2 ^ (bits - 1)).

(** The library's [CLIP8]: a channel is cut to a byte. *)
Definition clip8 (v : Z) : Z :=
  if v <=? 0 then 0 else if v <? 256 then v else 255.

(** The conversion of a color tuple to the four bytes of an RGBA pixel,
    as the imaging library does it before it stores a pixel: the red
    channel is read as a C [long long], the other three as C [int]s, an
    integer that does not fit raises OverflowError, and each channel is
    then clipped to [0, 255]. *)
Definition ink (c : Color) : option Color :=
  let '(r, g, b, a) := c in
  if fits 64 r && fits 32 g && fits 32 b && fits 32 a
  then Some (clip8 r, clip8 g, clip8 b, clip8 a)
  else None.

(** [im.putpixel((x, y), c)]: the color is converted, which can raise, and
    its bytes are stored.  The library's behaviour outside the image is
    not modelled: such a call is an error here, and [set_pixel] is shown
    never to make one. *)
Definition putpixel (x y : Z) (c : Color) (im : Image) : option Image :=
  if inside x y im
  then c' ← ink c;
       Some (alter (λ row, <[Z.to_nat x := c']> row) (Z.to_nat y) im)
  else None.

(** [im.getpixel((x, y))], used to state what the buffer holds. *)
Definition getpixel (x y : Z) (im : Image) : option Color :=
  if (0 <=? x) && (0 <=? y)
  then row ← im !! Z.to_nat y; row !! Z.to_nat x
  else None.

(** The image is [w] pixels wide and [h] pixels high. *)
Definition has_size (w h : Z) (im : Image) : Prop :=
  length im = Z.to_nat h ∧ Forall (λ row, length row = Z.to_nat w) im.

End Img.

(** ** The compositor (lines 16-37) *)

(** [atlas = Image.new('RGBA', (ATLAS_WIDTH, ATLAS_HEIGHT), (0, 0, 0, 0))] *)
Definition atlas0 : Image := Img.new ATLAS_WIDTH ATLAS_HEIGHT (0, 0, 0, 0).

Definition in_atlas (x y : Z) : bool :=
  (0 <=? x) && (x <? ATLAS_WIDTH) && (0 <=? y) && (y <? ATLAS_HEIGHT).

(** The global [atlas] is threaded through as an explicit state. *)
Definition set_pixel (x y : Z) (color : Color) (atlas : Image) : option Image :=
  if in_atlas x y then Img.putpixel x y color atlas else Some atlas.

Definition tile_origin (tile_idx : Z) : Z * Z :=
  let col := tile_idx mod TILES_PER_ROW in
  let row := tile_idx / TILES_PER_ROW in
  (col * TILE_SIZE, row * TILE_SIZE).

(** The loop nest of [draw_tile], at the pixel origin [(ox, oy)]. *)
Definition blit (ox oy : Z) (pixels : PixelGrid) (atlas : Image) : option Image :=
  Py.for_each (Py.range TILE_SIZE) (λ y atlas,
    Py.for_each (Py.range TILE_SIZE) (λ x atlas,
      if y <? Py.len pixels then
        row ← Py.index pixels y;
        if x <? Py.len row then
          color ← Py.index row x;
          set_pixel (ox + x) (oy + y) color atlas
        else Some atlas
      else Some atlas) atlas) atlas.

Definition draw_tile (tile_idx : Z) (pixels : PixelGrid) (atlas : Image) :
    option Image :=
  let '(ox, oy) := tile_origin tile_idx in
  blit ox oy pixels atlas.

(** ** Noise and clamp (lines 39-47) *)

Definition noise (x y seed : Z) : Z :=
  let n := x * 374761393 + y * 668265263 + seed * 1597463007 in
  let n := Z.lxor n (Z.shiftr n 13) * 1274126177 in
  Z.land (Z.lxor n (Z.shiftr n 16)) 255.

Definition clamp (v min_v max_v : Z) : Z := Z.max min_v (Z.min max_v v).

(** [clamp(v)] with the default bounds *)
Abbreviation clamp8 v := (clamp v 0 255).

(** ** Tile generators (lines 53-705) *)

(** Every generator fills a list of rows, top row first, each row filled
    left to right: [pixels[y][x]] is the color computed for [(x, y)]. *)
Definition pixel_rows (px : Z → Z → Color) : PixelGrid :=
  (λ y, (λ x, px x y) <$> Py.range TILE_SIZE) <$> Py.range TILE_SIZE.

(** The same loops when computing a pixel can raise. *)
Definition pixel_rowsM (px : Z → Z → option Color) : option PixelGrid :=
  mapM (λ y, mapM (λ x, px x y) (Py.range TILE_SIZE)) (Py.range TILE_SIZE).

(** Tile 0 *)
Definition gen_air : PixelGrid :=
  (λ _, replicate (Z.to_nat TILE_SIZE) (0, 0, 0, 0)) <$> Py.range TILE_SIZE.

(** Tile 1 *)
Definition stone_px (x y : Z) : Color :=
  let n := noise x y 1 in
  let v := 120 + ((n mod 40) - 20) in
  let v := if noise x y 7 mod 16 <? 2 then v - 60
           else if noise x y 13 mod 12 <? 2 then v + 40
           else v in
  let v := clamp8 v in
  (v, v, v, 255).

Definition gen_stone : PixelGrid := pixel_rows stone_px.

(** Tile 2 *)
Definition stones : list (Z * Z * float * Z) :=
  [ (3, 3, 3.5%float, 175);
    (11, 3, 3%float, 155);
    (7, 8, 4%float, 185);
    (2, 11, 2.5%float, 165);
    (13, 12, 3%float, 170);
    (7, 14, 2.5%float, 160);
    (14, 7, 2%float, 180) ].

(** The [for ... in stones] loop with its [break]: the value [v] set by the
    first stone that contains the pixel, [None] when the loop runs out. *)
Fixpoint first_stone (x y : Z) (l : list (Z * Z * float * Z)) : option Z :=
  match l with
  | [] => None
  | (sx, sy, sr, base) :: l' =>
      let dist := Py.fsqrt (Py.float_of_int ((x - sx) ^ 2 + (y - sy) ^ 2)) in
      if PrimFloat.ltb dist sr then
        let v := base in
        let v := v + (noise x y 5 mod 25) - 12 in
        let v := if (x <? sx) && (y <? sy) &&
                    PrimFloat.ltb dist (PrimFloat.mul sr 0.7%float)
                 then v + 50
                 else if (sx <? x) && (sy <? y) then v - 25
                 else v in
        Some v
      else first_stone x y l'
  end.

Definition cobblestone_px (x y : Z) : Color :=
  let '(v, in_stone) :=
    match first_stone x y stones with
    | Some v => (v, true)
    | None => (140, false)
    end in
  let v := if negb in_stone then 5 + (noise x y 2 mod 15) else v in
  let v := if negb in_stone && (noise x y 11 mod 8 <? 1) then 0 else v in
  let v := if in_stone && (160 <? v) && (noise x y 17 mod 12 <? 1) then 255 else v in
  let v := clamp8 v in
  (v, v, v, 255).

Definition gen_cobblestone : PixelGrid := pixel_rows cobblestone_px.

(** Tile 3 *)
Definition dirt_px (x y : Z) : Color :=
  let '(r, g, b) := (139, 90, 60) in
  let n := noise x y 3 in
  let r := r + (n mod 30) - 15 in
  let g := g + ((Z.shiftr n 2) mod 25) - 12 in
  let b := b + ((Z.shiftr n 4) mod 20) - 10 in
  let '(r, g, b) :=
    if noise x y 19 mod 25 <? 2 then (r + 35, g + 25, b + 20) else (r, g, b) in
  let '(r, g, b) :=
    if noise x y 23 mod 30 <? 1 then (r - 40, g - 30, b - 25) else (r, g, b) in
  let '(r, g, b) :=
    if noise x y 29 mod 15 <? 1 then (r + 20, g + 15, b + 10) else (r, g, b) in
  (clamp8 r, clamp8 g, clamp8 b, 255).

Definition gen_dirt : PixelGrid := pixel_rows dirt_px.

(** Tile 4 *)
Definition grass_top_px (x y : Z) : Color :=
  let '(r, g, b) := (105, 195, 95) in
  let n := noise x y 4 in
  let r := r + (n mod 30) - 10 in
  let g := g + ((Z.shiftr n 2) mod 35) - 10 in
  let b := b + ((Z.shiftr n 4) mod 25) - 10 in
  let '(r, g, b) :=
    if noise x y 31 mod 12 <? 2 then (r + 30, g + 45, b + 25) else (r, g, b) in
  let '(r, g, b) :=
    if noise x y 37 mod 18 <? 1 then (r - 25, g - 35, b - 20) else (r, g, b) in
  let '(r, g, b) :=
    if noise x y 41 mod 20 <? 1 then (r + 40, g + 30, b - 10) else (r, g, b) in
  (clamp r 50 255, clamp g 100 255, clamp b 50 255, 255).

Definition gen_grass_top : PixelGrid := pixel_rows grass_top_px.

(** Tile 5: the rows of the two base tiles are read by index. *)
Definition gen_grass_side : option PixelGrid :=
  let grass_top := gen_grass_top in
  let dirt := gen_dirt in
  pixel_rowsM (λ x y,
    if y <? 3 then row ← Py.index grass_top y; Py.index row x
    else row ← Py.index dirt y; Py.index row x).

(** Tile 6 *)
Definition sand_px (x y : Z) : Color :=
  let n := noise x y 6 in
  let r := 210 + (n mod 20) - 10 in
  let g := 200 + ((Z.shiftr n 2) mod 18) - 9 in
  let b := 145 + ((Z.shiftr n 4) mod 22) - 11 in
  (clamp8 r, clamp8 g, clamp8 b, 255).

Definition gen_sand : PixelGrid := pixel_rows sand_px.

(** Tile 7 *)
Definition gravel_px (x y : Z) : Color :=
  let n := noise x y 7 in
  let v := 125 + (n mod 35) - 17 in
  let v := if noise x y 43 mod 15 <? 2 then v - 45 else v in
  let r := v in
  let g := clamp8 (v - 8) in
  let b := clamp8 (v - 12) in
  (clamp8 r, clamp8 g, clamp8 b, 255).

Definition gen_gravel : PixelGrid := pixel_rows gravel_px.

(** Tile 8: [int] of a float can raise, so a pixel is an [option]. *)
Definition log_end_px (x y : Z) : option Color :=
  let '(center_x, center_y) := (7.5%float, 7.5%float) in
  let dist :=
    Py.fsqrt (PrimFloat.add
                (Py.fsquare (PrimFloat.sub (Py.float_of_int x) center_x))
                (Py.fsquare (PrimFloat.sub (Py.float_of_int y) center_y))) in
  i ← Py.int_of_float (PrimFloat.mul dist 1.8%float);
  let ring := i mod 2 in
  let base := if ring =? 0 then 160 else 120 in
  let n := noise x y 8 in
  let r := base + (n mod 20) - 10 in
  i ← Py.int_of_float (PrimFloat.mul (Py.float_of_int r) 0.7%float);
  let g := clamp8 i in
  i ← Py.int_of_float (PrimFloat.mul (Py.float_of_int r) 0.42%float);
  let b := clamp8 i in
  Some (clamp8 r, clamp8 g, clamp8 b, 255).

Definition gen_log_end : option PixelGrid := pixel_rowsM log_end_px.

(** Tile 9 *)
Definition log_bark_px (x y : Z) : Color :=
  let '(r, g, b) := (145, 115, 70) in
  let n := noise x y 9 in
  let r := r + (n mod 25) - 12 in
  let g := g + ((Z.shiftr n 2) mod 20) - 10 in
  let b := b + ((Z.shiftr n 4) mod 18) - 9 in
  let '(r, g, b) :=
    if x mod 4 =? 0 then (r - 20, g - 15, b - 10) else (r, g, b) in
  (clamp8 r, clamp8 g, clamp8 b, 255).

Definition gen_log_bark : PixelGrid := pixel_rows log_bark_px.

(** Tile 10 *)
Definition leaves_px (x y : Z) : Color :=
  let '(r, g, b) := (80, 140, 70) in
  let n := noise x y 10 in
  let r := r + (n mod 35) - 17 in
  let g := g + ((Z.shiftr n 2) mod 40) - 20 in
  let b := b + ((Z.shiftr n 4) mod 30) - 15 in
  if noise x y 47 mod 22 <? 1
  then (clamp r 40 120, clamp g 80 180, clamp b 40 120, 160)
  else (clamp r 50 140, clamp g 90 200, clamp b 50 130, 220).

Definition gen_leaves : PixelGrid := pixel_rows leaves_px.

(** Tile 11 *)
Definition water_px (x y : Z) : Color :=
  let n := noise x y 11 in
  let r := 50 + (n mod 18) - 9 in
  let g := 105 + ((Z.shiftr n 2) mod 22) - 11 in
  let b := 220 + ((Z.shiftr n 4) mod 25) - 12 in
  (clamp8 r, clamp8 g, clamp8 b, 140).

Definition gen_water : PixelGrid := pixel_rows water_px.

(** Tiles 12-15: the vein test of the ore family *)
Definition is_vein (tile_idx x y : Z) : bool :=
  noise (x * 3 + 7) (y * 5 + 11) tile_idx mod 16 <? 3.

Definition gen_ore (tile_idx ore_r ore_g ore_b : Z) : option PixelGrid :=
  let stone := gen_stone in
  pixel_rowsM (λ x y,
    if is_vein tile_idx x y then
      let n := noise x y (tile_idx + 50) in
      let r := ore_r + (n mod 20) - 10 in
      let g := ore_g + ((Z.shiftr n 2) mod 20) - 10 in
      let b := ore_b + ((Z.shiftr n 4) mod 20) - 10 in
      Some (clamp8 r, clamp8 g, clamp8 b, 255)
    else
      row ← Py.index stone y; Py.index row x).

(** Tile 16 *)
Definition bedrock_px (x y : Z) : Color :=
  let n := noise x y 16 in
  let v := 25 + (n mod 30) in
  (clamp8 v, clamp8 v, clamp8 v, 255).

Definition gen_bedrock : PixelGrid := pixel_rows bedrock_px.

(** Tile 19 *)
Definition planks_px (x y : Z) : Color :=
  let '(r, g, b) := (175, 140, 90) in
  let n := noise x y 19 in
  let r := r + (n mod 20) - 10 in
  let g := g + ((Z.shiftr n 2) mod 18) - 9 in
  let b := b + ((Z.shiftr n 4) mod 15) - 7 in
  let '(r, g, b) :=
    if y mod 4 =? 0 then (r - 30, g - 25, b - 20) else (r, g, b) in
  let '(r, g, b) :=
    if (x + y / 2) mod 3 =? 0 then (r - 10, g - 8, b - 6) else (r, g, b) in
  (clamp8 r, clamp8 g, clamp8 b, 255).

Definition gen_planks : PixelGrid := pixel_rows planks_px.

(** The solid-icon family.  [shape_mask=None] selects the default oval. *)
Definition default_oval (x y : Z) : bool :=
  let cx := PrimFloat.sub (Py.float_of_int x) 7.5%float in
  let cy := PrimFloat.sub (Py.float_of_int y) 7.5%float in
  PrimFloat.ltb
    (PrimFloat.add (PrimFloat.div (PrimFloat.mul cx cx) 25%float)
                   (PrimFloat.div (PrimFloat.mul cy cy) 20%float))
    1%float.

Definition solid_item_px (base_r base_g base_b : Z)
    (shape_mask : option (Z → Z → bool)) (x y : Z) : Color :=
  match shape_mask with
  | None =>
      if default_oval x y then
        let n := noise x y 99 in
        let r := base_r + (n mod 15) - 7 in
        let g := base_g + ((Z.shiftr n 2) mod 15) - 7 in
        let b := base_b + ((Z.shiftr n 4) mod 15) - 7 in
        (clamp8 r, clamp8 g, clamp8 b, 255)
      else (0, 0, 0, 0)
  | Some mask =>
      if mask x y then
        let n := noise x y 99 in
        let r := base_r + (n mod 15) - 7 in
        let g := base_g + ((Z.shiftr n 2) mod 15) - 7 in
        let b := base_b + ((Z.shiftr n 4) mod 15) - 7 in
        (clamp8 r, clamp8 g, clamp8 b, 255)
      else (0, 0, 0, 0)
  end.

Definition gen_solid_item (base_r base_g base_b : Z)
    (shape_mask : option (Z → Z → bool)) : PixelGrid :=
  pixel_rows (solid_item_px base_r base_g base_b shape_mask).

(** Tile 33 *)
Definition glass_px (x y : Z) : Color :=
  let n := noise x y 33 in
  if (x =? 0) || (x =? 15) || (y =? 0) || (y =? 15) then
    let r := 170 + (n mod 15) in
    let g := 190 + ((Z.shiftr n 2) mod 15) in
    let b := 200 + ((Z.shiftr n 4) mod 15) in
    (clamp8 r, clamp8 g, clamp8 b, 220)
  else
    let r := 200 + (n mod 10) in
    let g := 220 + ((Z.shiftr n 2) mod 10) in
    let b := 230 + ((Z.shiftr n 4) mod 10) in
    (clamp8 r, clamp8 g, clamp8 b, 60).

Definition gen_glass : PixelGrid := pixel_rows glass_px.

(** Tile 46 *)
Definition lava_px (x y : Z) : Color :=
  let n1 := noise (x * 2) (y * 3) 461 in
  let n2 := noise (x * 5 + 7) (y * 4 + 3) 462 in
  let r := 210 + (n1 mod 30) in
  let g := 90 + ((Z.shiftr n1 2) mod 40) in
  let b := 15 + ((Z.shiftr n1 4) mod 20) in
  let '(r, g, b) :=
    if n2 mod 20 <? 2 then (r - 80, g - 40, b - 5) else (r, g, b) in
  let '(r, g, b) :=
    if n2 mod 25 <? 1 then (255, 230, 60) else (r, g, b) in
  (clamp8 r, clamp8 g, clamp8 b, 255).

Definition gen_lava : PixelGrid := pixel_rows lava_px.

(** Tile 47 *)
Definition obsidian_px (x y : Z) : Color :=
  let n := noise x y 47 in
  let r := 18 + (n mod 15) in
  let g := 10 + ((Z.shiftr n 2) mod 10) in
  let b := 28 + ((Z.shiftr n 4) mod 18) in
  let '(r, b) := if n mod 20 <? 1 then (r + 25, b + 30) else (r, b) in
  (clamp8 r, clamp8 g, clamp8 b, 255).

Definition gen_obsidian : PixelGrid := pixel_rows obsidian_px.

(** Tile 48 *)
Definition gen_farmland : option PixelGrid :=
  let dirt := gen_dirt in
  pixel_rowsM (λ x y,
    row ← Py.index dirt y;
    '(r, g, b, a) ← Py.index row x;
    let r := clamp8 (r - 25) in
    let g := clamp8 (g - 20) in
    let b := clamp8 (b - 15) in
    let '(r, g, b) :=
      if y mod 4 <? 2
      then (clamp8 (r - 20), clamp8 (g - 15), clamp8 (b - 10))
      else (r, g, b) in
    Some (r, g, b, a)).

(** Tiles 49-56: the wheat-growth family *)
Definition wheat_heights : list Z := [4; 6; 8; 10; 11; 13; 14; 16].

Definition wheat_px (stage height : Z) (x y : Z) : Color :=
  let '(stalk_r, stalk_g, stalk_b) :=
    if stage <=? 2 then (55, 150, 35)
    else if stage <=? 4 then (65, 135, 30)
    else if stage =? 5 then (110, 145, 35)
    else if stage =? 6 then (140, 140, 30)
    else (180, 155, 45) in
  let has_head := 5 <=? stage in
  let '(head_r, head_g, head_b) :=
    if stage =? 5 then (150, 130, 35)
    else if stage =? 6 then (190, 160, 45)
    else (210, 180, 55) in
  let pixels_from_bottom := TILE_SIZE - 1 - y in
  if height <=? pixels_from_bottom then (0, 0, 0, 0)
  else
    let is_stalk := Py.mem x [3; 7; 11; 14] in
    let is_leaf :=
      Py.mem x [2; 4; 6; 8; 10; 12; 13; 15] &&
      ((1 <? pixels_from_bottom) && (pixels_from_bottom <? height - 1)) &&
      ((pixels_from_bottom + x) mod 3 =? 0) in
    let is_head :=
      has_head && (height - 3 <=? pixels_from_bottom) &&
      (is_stalk ||
       (((2 <=? x) && (x <=? 14)) && ((pixels_from_bottom + x) mod 2 =? 0))) in
    if is_head then
      let n := noise x y (stage + 490) in
      let r := head_r + (n mod 15) - 7 in
      let g := head_g + ((Z.shiftr n 2) mod 15) - 7 in
      let b := head_b + ((Z.shiftr n 4) mod 15) - 7 in
      (clamp8 r, clamp8 g, clamp8 b, 255)
    else if is_stalk then
      let n := noise x y (stage + 490) in
      let r := stalk_r + (n mod 12) - 6 in
      let g := stalk_g + ((Z.shiftr n 2) mod 12) - 6 in
      let b := stalk_b + ((Z.shiftr n 4) mod 12) - 6 in
      (clamp8 r, clamp8 g, clamp8 b, 255)
    else if is_leaf then
      let n := noise x y (stage + 491) in
      let r := clamp8 (stalk_r - 10 + (n mod 10) - 5) in
      let g := clamp8 (stalk_g + 10 + ((Z.shiftr n 2) mod 10) - 5) in
      let b := clamp8 (stalk_b - 5 + ((Z.shiftr n 4) mod 10) - 5) in
      (r, g, b, 200)
    else (0, 0, 0, 0).

(** The height is read from the table first: a stage outside it raises. *)
Definition gen_wheat_stage (stage : Z) : option PixelGrid :=
  height ← Py.index wheat_heights stage;
  Some (pixel_rows (wheat_px stage height)).

(** Tile 57 *)
Definition hoe_icon_px (x y : Z) : Color :=
  let hx := x - 2 in
  let hy := (TILE_SIZE - 1 - y) - 2 in
  let is_handle :=
    ((0 <=? hx) && (hx <=? 8)) && ((0 <=? hy) && (hy <=? 8)) &&
    (Z.abs (hx - hy) <=? 1) in
  let is_blade := ((8 <=? x) && (x <=? 14)) && ((2 <=? y) && (y <=? 5)) in
  if is_blade then
    let n := noise x y 57 in
    let v := 130 + (n mod 20) - 10 in
    (clamp8 v, clamp8 v, clamp8 v, 255)
  else if is_handle then
    let n := noise x y 571 in
    let r := 115 + (n mod 15) - 7 in
    let g := 80 + ((Z.shiftr n 2) mod 15) - 7 in
    let b := 45 + ((Z.shiftr n 4) mod 15) - 7 in
    (clamp8 r, clamp8 g, clamp8 b, 255)
  else (0, 0, 0, 0).

Definition gen_hoe_icon : PixelGrid := pixel_rows hoe_icon_px.

(** Tile 58 *)
Definition seed_positions : list (Z * Z) :=
  [(4, 6); (7, 4); (10, 7); (5, 10); (8, 9); (12, 5); (6, 13); (11, 11);
   (3, 8); (9, 12)].

Definition seeds_icon_px (x y : Z) : Color :=
  let is_seed :=
    existsb (λ '(sx, sy), (Z.abs (x - sx) <=? 1) && (Z.abs (y - sy) =? 0))
            seed_positions in
  if is_seed then
    let n := noise x y 58 in
    let r := 90 + (n mod 15) - 7 in
    let g := 120 + ((Z.shiftr n 2) mod 15) - 7 in
    let b := 35 + ((Z.shiftr n 4) mod 15) - 7 in
    (clamp8 r, clamp8 g, clamp8 b, 255)
  else (0, 0, 0, 0).

Definition gen_seeds_icon : PixelGrid := pixel_rows seeds_icon_px.

(** Tile 59 *)
Definition wheat_item_px (x y : Z) : Color :=
  let stalk1 := (x =? 6) && ((5 <=? y) && (y <=? 14)) in
  let stalk2 := (x =? 8) && ((4 <=? y) && (y <=? 14)) in
  let stalk3 := (x =? 10) && ((5 <=? y) && (y <=? 14)) in
  let head1 := ((5 <=? x) && (x <=? 7)) && ((2 <=? y) && (y <=? 5)) in
  let head2 := ((7 <=? x) && (x <=? 9)) && ((1 <=? y) && (y <=? 4)) in
  let head3 := ((9 <=? x) && (x <=? 11)) && ((2 <=? y) && (y <=? 5)) in
  if head1 || head2 || head3 then
    let n := noise x y 59 in
    let r := 210 + (n mod 15) - 7 in
    let g := 175 + ((Z.shiftr n 2) mod 15) - 7 in
    let b := 50 + ((Z.shiftr n 4) mod 15) - 7 in
    (clamp8 r, clamp8 g, clamp8 b, 255)
  else if stalk1 || stalk2 || stalk3 then
    let n := noise x y 591 in
    let r := 170 + (n mod 15) - 7 in
    let g := 145 + ((Z.shiftr n 2) mod 15) - 7 in
    let b := 40 + ((Z.shiftr n 4) mod 15) - 7 in
    (clamp8 r, clamp8 g, clamp8 b, 255)
  else (0, 0, 0, 0).

Definition gen_wheat_item : PixelGrid := pixel_rows wheat_item_px.

(** ** The manifest (lines 715-767) *)

(** A generator invocation, as the manifest writes it. *)
Inductive Gen :=
  | Air | Stone | Cobblestone | Dirt | GrassTop | GrassSide | Sand | Gravel
  | LogEnd | LogBark | Leaves | Water
  | Ore (tile_idx ore_r ore_g ore_b : Z)
  | Bedrock | Planks
  | SolidItem (base_r base_g base_b : Z) (shape_mask : option (Z → Z → bool))
  | Glass | Lava | Obsidian | Farmland
  | WheatStage (stage : Z)
  | HoeIcon | SeedsIcon | WheatItem.

(** Running the invocation: the grid it returns, [None] when it raises. *)
Definition generate (g : Gen) : option PixelGrid :=
  match g with
  | Air => Some gen_air
  | Stone => Some gen_stone
  | Cobblestone => Some gen_cobblestone
  | Dirt => Some gen_dirt
  | GrassTop => Some gen_grass_top
  | GrassSide => gen_grass_side
  | Sand => Some gen_sand
  | Gravel => Some gen_gravel
  | LogEnd => gen_log_end
  | LogBark => Some gen_log_bark
  | Leaves => Some gen_leaves
  | Water => Some gen_water
  | Ore tile_idx ore_r ore_g ore_b => gen_ore tile_idx ore_r ore_g ore_b
  | Bedrock => Some gen_bedrock
  | Planks => Some gen_planks
  | SolidItem base_r base_g base_b shape_mask =>
      Some (gen_solid_item base_r base_g base_b shape_mask)
  | Glass => Some gen_glass
  | Lava => Some gen_lava
  | Obsidian => Some gen_obsidian
  | Farmland => gen_farmland
  | WheatStage stage => gen_wheat_stage stage
  | HoeIcon => Some gen_hoe_icon
  | SeedsIcon => Some gen_seeds_icon
  | WheatItem => Some gen_wheat_item
  end.

(** The [draw_tile(index, generator(...))] statements in program order; the
    [for i in range(8)] loop contributes its eight statements. *)
Definition manifest : list (Z * Gen) :=
  [ (0, Air); (1, Stone); (2, Cobblestone); (3, Dirt); (4, GrassTop);
    (5, GrassSide); (6, Sand); (7, Gravel); (8, LogEnd); (9, LogBark);
    (10, Leaves); (11, Water);
    (12, Ore 12 40 40 40); (13, Ore 13 170 130 90); (14, Ore 14 245 205 0);
    (15, Ore 15 90 210 245);
    (16, Bedrock);
    (17, SolidItem 230 130 120 None); (18, SolidItem 130 95 60 None);
    (19, Planks);
    (31, SolidItem 30 30 30 None); (32, SolidItem 190 185 180 None);
    (33, Glass); (34, SolidItem 190 120 75 None);
    (37, SolidItem 110 220 245 None); (38, SolidItem 50 35 20 None);
    (39, SolidItem 245 190 40 None);
    (46, Lava); (47, Obsidian);
    (48, Farmland) ]
  ++ ((λ i, (49 + i, WheatStage i)) <$> Py.range 8)
  ++ [ (57, HoeIcon); (58, SeedsIcon); (59, WheatItem) ].

(** One statement: evaluate the generator, then draw its grid. *)
Definition exec_draw (st : Z * Gen) (atlas : Image) : option Image :=
  pixels ← generate st.2;
  draw_tile st.1 pixels atlas.

(** The statements in sequence, from a given atlas. *)
Fixpoint run (m : list (Z * Gen)) (atlas : Image) : option Image :=
  match m with
  | [] => Some atlas
  | st :: m' => atlas' ← exec_draw st atlas; run m' atlas'
  end.

(** The whole script: the buffer handed to [atlas.save]. *)
Definition main : option Image := run manifest atlas0.

(** [main] is a name for the run: it is unfolded before anything is
    evaluated. *)
#[global] Strategy expand [main].

(** * Specification vocabulary *)

(** ** The compositor *)

(** The invariant of the global buffer: it keeps the size it was created
    with. *)
Definition atlas_ok (atlas : Image) : Prop :=
  Img.has_size ATLAS_WIDTH ATLAS_HEIGHT atlas.

(** The write [set_pixel(x, y, c)] raises: the coordinate passes the bounds
    check and the library cannot convert the color. *)
Definition overflows (x y : Z) (c : Color) : Prop :=
  in_atlas x y = true ∧ Img.ink c = None.

#[global] Instance overflows_dec x y c : Decision (overflows x y c).
Proof. unfold overflows. apply _. Defined.

(** The entry [pixels[y][x]] exists and its write at origin [(ox, oy)]
    raises. *)
Definition entry_overflows (pixels : PixelGrid) (ox oy : Z) (x y : Z) : Prop :=
  match Img.getpixel x y pixels with
  | Some c => overflows (ox + x) (oy + y) c
  | None => False
  end.

#[global] Instance entry_overflows_dec pixels ox oy x y :
  Decision (entry_overflows pixels ox oy x y).
Proof. unfold entry_overflows. destruct (Img.getpixel x y pixels); apply _. Defined.

(** A row of the tile, and the tile, has an entry whose write raises. *)
Definition row_overflows (pixels : PixelGrid) (ox oy : Z) (y : Z) : Prop :=
  Exists (λ x, entry_overflows pixels ox oy x y) (Py.range TILE_SIZE).

Definition grid_overflows (pixels : PixelGrid) (ox oy : Z) : Prop :=
  Exists (row_overflows pixels ox oy) (Py.range TILE_SIZE).

#[global] Instance row_overflows_dec pixels ox oy y :
  Decision (row_overflows pixels ox oy y).
Proof. unfold row_overflows. apply _. Defined.

#[global] Instance grid_overflows_dec pixels ox oy :
  Decision (grid_overflows pixels ox oy).
Proof. unfold grid_overflows. apply _. Defined.

(** [blitted pixels ox oy atlas0 W atlas]: drawing [pixels] at origin
    [(ox, oy)] has reached the region [W]: the pixels of [W] hold the
    bytes of the grid's entry, every other pixel is as in the starting
    atlas [atlas0]. *)
Definition blitted (pixels : PixelGrid) (ox oy : Z) (atlas0 : Image)
    (W : Z → Z → Prop) (atlas : Image) : Prop :=
  atlas_ok atlas ∧
  ∀ px py,
    (W px py →
       Img.getpixel px py atlas =
         Img.getpixel (px - ox) (py - oy) pixels ≫= Img.ink) ∧
    (¬ W px py → Img.getpixel px py atlas = Img.getpixel px py atlas0).

(** The statement in the inner loop of [draw_tile]. *)
Definition blit_body (pixels : PixelGrid) (ox oy : Z) (x y : Z)
    (atlas : Image) : option Image :=
  if y <? Py.len pixels then
    row ← Py.index pixels y;
    if x <? Py.len row then
      color ← Py.index row x;
      set_pixel (ox + x) (oy + y) color atlas
    else Some atlas
  else Some atlas.

(** The pixel [(px, py)] is the target of the write for [(x, y)]. *)
Definition hits (pixels : PixelGrid) (ox oy : Z) (x y px py : Z) : Prop :=
  px = ox + x ∧ py = oy + y ∧ in_atlas px py = true ∧
  is_Some (Img.getpixel x y pixels).

(** The region a whole tile covers: the atlas pixels that face an entry
    of the grid. *)
Definition covers (pixels : PixelGrid) (ox oy : Z) (px py : Z) : Prop :=
  in_atlas px py = true ∧
  0 ≤ px - ox < TILE_SIZE ∧ 0 ≤ py - oy < TILE_SIZE ∧
  is_Some (Img.getpixel (px - ox) (py - oy) pixels).

(** The pixel [(px, py)] lies in the 16 by 16 region of tile [tile_idx]. *)
Definition in_tile (tile_idx px py : Z) : Prop :=
  0 ≤ px - (tile_origin tile_idx).1 < TILE_SIZE ∧
  0 ≤ py - (tile_origin tile_idx).2 < TILE_SIZE.

(** ** Reading a grid *)

(** [pixels[y][x]] *)
Definition grid_get (pixels : PixelGrid) (x y : Z) : option Color :=
  row ← Py.index pixels y; Py.index row x.

(** The entry that the guard of [draw_tile] lets through: [pixels[y][x]]
    when [y < len(pixels)] and [x < len(pixels[y])]. *)
Definition grid_entry (pixels : PixelGrid) (x y : Z) : option Color :=
  if y <? Py.len pixels then
    row ← Py.index pixels y;
    if x <? Py.len row then Py.index row x else None
  else None.

(** ** Colors *)

(** A channel value fits a byte. *)
Definition channel (v : Z) : Prop := 0 ≤ v ≤ 255.

Definition valid_color (c : Color) : Prop :=
  channel c.1.1.1 ∧ channel c.1.1.2 ∧ channel c.1.2 ∧ channel c.2.

Definition alpha (c : Color) : Z := c.2.

(** ** The derived generators *)

(** The derived generators, once their reads from the base grids are
    resolved: the pixel each of them stores at [(x, y)]. *)
Definition grass_side_px (x y : Z) : Color :=
  if y <? 3 then grass_top_px x y else dirt_px x y.

Definition ore_px (tile_idx ore_r ore_g ore_b : Z) (x y : Z) : Color :=
  if is_vein tile_idx x y then
    let n := noise x y (tile_idx + 50) in
    let r := ore_r + (n mod 20) - 10 in
    let g := ore_g + ((Z.shiftr n 2) mod 20) - 10 in
    let b := ore_b + ((Z.shiftr n 4) mod 20) - 10 in
    (clamp8 r, clamp8 g, clamp8 b, 255)
  else stone_px x y.

Definition farmland_px (x y : Z) : Color :=
  let '(r, g, b, a) := dirt_px x y in
  let r := clamp8 (r - 25) in
  let g := clamp8 (g - 20) in
  let b := clamp8 (b - 15) in
  let '(r, g, b) :=
    if y mod 4 <? 2
    then (clamp8 (r - 20), clamp8 (g - 15), clamp8 (b - 10))
    else (r, g, b) in
  (r, g, b, a).

(** A generator returns a grid unless it is a wheat stage outside the
    height table. *)
Definition stage_ok (g : Gen) : bool :=
  match g with
  | WheatStage stage => (0 <=? stage) && (stage <=? 7)
  | _ => true
  end.

(** ** The hash of the specification *)

(** The hash as the specification words it, over the integers: a right
    shift by [k] is the floor of the division by [2^k], and the final mask
    keeps the remainder modulo 256. *)
Definition hash_spec (x y seed : Z) : Z :=
  let n := x * 374761393 + y * 668265263 + seed * 1597463007 in
  let n := Z.lxor n (n / 2 ^ 13) * 1274126177 in
  Z.lxor n (n / 2 ^ 16) mod 2 ^ 8.

(** ** The visible height of a crop *)

(** A row shows something when one of its pixels has a nonzero alpha. *)
Definition opaque_row (row : list Color) : bool :=
  existsb (λ c, negb (alpha c =? 0)) row.

Fixpoint leading {A} (p : A → bool) (l : list A) : Z :=
  match l with
  | [] => 0
  | a :: l' => if p a then 1 + leading p l' else 0
  end.

(** The visible crop height: the number of rows that show something,
    counted from the bottom row upward. *)
Definition visible_height (pixels : PixelGrid) : Z :=
  leading opaque_row (reverse pixels).

(** ** Vocabulary of the further properties *)

(** What a draw at origin [(ox, oy)] that returns leaves at [(px, py)],
    given what was there. *)
Definition drawn (pixels : PixelGrid) (ox oy : Z) (old : option Color)
    (px py : Z) : option Color :=
  if in_atlas px py && (0 <=? px - ox) && (px - ox <? TILE_SIZE) &&
     (0 <=? py - oy) && (py - oy <? TILE_SIZE)
  then match Img.getpixel (px - ox) (py - oy) pixels with
       | Some c => Img.ink c
       | None => old
       end
  else old.

(** A grid of 16 rows of 16 pixels. *)
Definition full_grid (pixels : PixelGrid) : Prop :=
  Py.len pixels = TILE_SIZE ∧ ∀ row, row ∈ pixels → Py.len row = TILE_SIZE.

(** The alpha values a generator may give a pixel: blocks are opaque,
    leaves, water and glass are translucent, icons and crops are cut out
    of a fully transparent background. *)
Definition alpha_law (g : Gen) (c : Color) : Prop :=
  match g with
  | Air => c = (0, 0, 0, 0)
  | Leaves => alpha c = 160 ∨ alpha c = 220
  | Water => alpha c = 140
  | Glass => alpha c = 60 ∨ alpha c = 220
  | SolidItem _ _ _ _ | HoeIcon | SeedsIcon | WheatItem =>
      c = (0, 0, 0, 0) ∨ alpha c = 255
  | WheatStage _ => c = (0, 0, 0, 0) ∨ alpha c = 200 ∨ alpha c = 255
  | _ => alpha c = 255
  end.

(** The stalk color of the young stages, as the opaque pixels of a crop
    drawn for a negative stage have it. *)
Definition young_stalk (c : Color) : Prop :=
  49 ≤ c.1.1.1 ≤ 60 ∧ 144 ≤ c.1.1.2 ≤ 155 ∧ 29 ≤ c.1.2 ≤ 40.

(** An opaque color whose channels are within [d] of the clamped base
    color. *)
Definition tinted (d : Z) (base_r base_g base_b : Z) (c : Color) : Prop :=
  alpha c = 255 ∧
  clamp8 base_r - d ≤ c.1.1.1 ≤ clamp8 base_r + d ∧
  clamp8 base_g - d ≤ c.1.1.2 ≤ clamp8 base_g + d ∧
  clamp8 base_b - d ≤ c.1.2 ≤ clamp8 base_b + d.

(** The shape an icon is cut to: the mask when one is given, the oval
    otherwise. *)
Definition item_shape (shape_mask : option (Z → Z → bool)) (x y : Z) : bool :=
  match shape_mask with
  | None => default_oval x y
  | Some mask => mask x y
  end.

(** The darkening of [gen_farmland]: 25, 20 and 15 off the three channels,
    and 20, 15 and 10 more in the furrow rows. *)
Definition furrow_offset (y : Z) : Z * Z * Z :=
  if y mod 4 <? 2 then (45, 35, 25) else (25, 20, 15).

(** The outermost ring of pixels of a tile. *)
Definition on_border (x y : Z) : bool :=
  (x =? 0) || (x =? 15) || (y =? 0) || (y =? 15).

(** The generators of item icons, the oval one included. *)
Definition is_icon (g : Gen) : bool :=
  match g with
  | SolidItem _ _ _ None | HoeIcon | SeedsIcon | WheatItem => true
  | _ => false
  end.

(** * Properties *)

(** ** Arithmetic of the primitives *)

Lemma land_255_range (n : Z) : 0 ≤ Z.land n 255 ≤ 255.
Proof.
  change 255 with (Z.ones 8) at 1 2.
  rewrite Z.land_ones by lia.
  pose proof (Z.mod_pos_bound n (2 ^ 8)) as H. lia.
Qed.

Lemma noise_range (x y seed : Z) : 0 ≤ noise x y seed ≤ 255.
Proof. unfold noise. apply land_255_range. Qed.

Lemma clamp_range (v lo hi : Z) : lo ≤ hi → lo ≤ clamp v lo hi ≤ hi.
Proof. unfold clamp. lia. Qed.

(** ** Python lists and loops *)

Lemma range_lookup (n : Z) (i : nat) :
  Z.of_nat i < n → Py.range n !! i = Some (Z.of_nat i).
Proof. intros H. unfold Py.range. by rewrite lookup_seqZ_lt. Qed.

Lemma range_elem (n i : Z) : i ∈ Py.range n ↔ 0 ≤ i < n.
Proof. unfold Py.range. rewrite elem_of_seqZ. lia. Qed.

(** Inside the list, [l[i]] is the plain lookup. *)
Lemma index_nonneg {A} (l : list A) (i : Z) :
  0 ≤ i → Py.index l i = l !! Z.to_nat i.
Proof. intros H. unfold Py.index. by rewrite (proj2 (Z.leb_le 0 i)). Qed.

Lemma index_in_range {A} (l : list A) (i : Z) :
  0 ≤ i < Py.len l → is_Some (Py.index l i).
Proof.
  intros [H0 H1]. rewrite index_nonneg by done.
  apply lookup_lt_is_Some. unfold Py.len in H1. lia.
Qed.

(** The loop rule when the body can raise: the loop raises when it meets
    an element the body raises on, and otherwise ends with the invariant. *)
Lemma for_each_outcome {S} (Inv : list Z → S → Prop) (Bad : Z → Prop)
    `{!∀ i, Decision (Bad i)} (body : Z → S → option S) (l : list Z) (s : S) :
  Inv [] s →
  (∀ done i s, Inv done s → i ∈ l →
     (Bad i → body i s = None) ∧
     (¬ Bad i → ∃ s', body i s = Some s' ∧ Inv (done ++ [i]) s')) →
  (Exists Bad l → Py.for_each l body s = None) ∧
  (¬ Exists Bad l → ∃ s', Py.for_each l body s = Some s' ∧ Inv l s').
Proof.
  intros H0 Hstep.
  cut (∀ todo done s, done ++ todo = l → Inv done s →
         (Exists Bad todo → Py.for_each todo body s = None) ∧
         (¬ Exists Bad todo →
            ∃ s', Py.for_each todo body s = Some s' ∧ Inv l s')).
  { intros Hgen. by apply (Hgen l []). }
  clear s H0. intros todo.
  induction todo as [|i todo IH]; intros done s Hl Hinv.
  - rewrite app_nil_r in Hl. subst done. split.
    + intros Hbad. by apply Exists_nil in Hbad.
    + intros _. by exists s.
  - assert (i ∈ l) as Hi.
    { rewrite <- Hl. apply elem_of_app. right. by left. }
    destruct (Hstep done i s Hinv Hi) as [Hraise Hret]. cbn [Py.for_each].
    destruct (decide (Bad i)) as [Hb|Hb].
    + rewrite (Hraise Hb). split; [done|].
      intros Hn. exfalso. apply Hn. by left.
    + destruct (Hret Hb) as (s' & -> & Hinv'). cbn [mbind option_bind].
      destruct (IH (done ++ [i]) s') as [IH1 IH2]; [|done|].
      { by rewrite <- app_assoc. }
      split.
      * intros Hbad. apply Exists_cons in Hbad as [?|?]; [done|by apply IH1].
      * intros Hn. apply IH2. intros Hbad. apply Hn. by right.
Qed.

(** ** The image buffer *)

(** A color whose channels are bytes is stored as it is. *)
Lemma ink_valid (c : Color) : valid_color c → Img.ink c = Some c.
Proof.
  destruct c as [[[r g] b] a]. unfold valid_color, channel. cbn [fst snd].
  intros (Hr & Hg & Hb & Ha). unfold Img.ink, Img.fits, Img.clip8.
  rewrite !(proj2 (Z.leb_le _ _)), !(proj2 (Z.ltb_lt _ _)) by lia.
  cbn [andb]. repeat f_equal;
    repeat (case_match; try lia); reflexivity.
Qed.

(** What is stored is a color whose channels are bytes. *)
Lemma ink_Some_valid (c c' : Color) : Img.ink c = Some c' → valid_color c'.
Proof.
  destruct c as [[[r g] b] a]. unfold Img.ink.
  destruct (_ && _); [|done]. intros [= <-].
  unfold valid_color, channel, Img.clip8. cbn [fst snd].
  split_and!; repeat case_match; lia.
Qed.

Lemma getpixel_Forall (P : Color → Prop) (pixels : PixelGrid) (x y : Z)
    (c : Color) :
  Forall (Forall P) pixels → Img.getpixel x y pixels = Some c → P c.
Proof.
  intros Hall. unfold Img.getpixel.
  destruct ((0 <=? x) && (0 <=? y)); [|done].
  destruct (pixels !! Z.to_nat y) as [row|] eqn:Hrow;
    cbn [mbind option_bind]; [|done].
  intros Hc. rewrite Forall_forall in Hall.
  specialize (Hall row (list_elem_of_lookup_2 _ _ _ Hrow)).
  rewrite Forall_forall in Hall.
  exact (Hall c (list_elem_of_lookup_2 _ _ _ Hc)).
Qed.

Section image.
Context (w h : Z) (Hw : 0 ≤ w).
Implicit Types im : Image.

Lemma new_has_size (c : Color) : Img.has_size w h (Img.new w h c).
Proof.
  split; unfold Img.new.
  - by rewrite length_replicate.
  - apply Forall_replicate. by rewrite length_replicate.
Qed.

Lemma inside_has_size im (x y : Z) :
  Img.has_size w h im →
  Img.inside x y im = (0 <=? x) && (0 <=? y) && (y <? h) && (x <? w).
Proof.
  intros [Hlen Hrows]. unfold Img.inside.
  destruct (0 <=? x) eqn:Hx; [|done].
  destruct (0 <=? y) eqn:Hy; [|done]. simpl.
  apply Z.leb_le in Hx, Hy.
  destruct (im !! Z.to_nat y) as [row|] eqn:Hrow.
  - assert (y < h) as Hyh.
    { apply lookup_lt_Some in Hrow. lia. }
    rewrite (proj2 (Z.ltb_lt y h) Hyh). simpl.
    rewrite Forall_lookup in Hrows. specialize (Hrows _ _ Hrow).
    unfold Py.len. rewrite Hrows. f_equal. lia.
  - apply lookup_ge_None in Hrow.
    rewrite (proj2 (Z.ltb_ge y h)); [done|lia].
Qed.

Lemma putpixel_has_size im im' (x y : Z) (c : Color) :
  Img.has_size w h im → Img.putpixel x y c im = Some im' →
  Img.has_size w h im'.
Proof.
  intros [Hlen Hrows]. unfold Img.putpixel.
  destruct (Img.inside x y im); [|done].
  destruct (Img.ink c) as [c'|]; cbn [mbind option_bind]; [|done].
  intros [= <-]. split.
  - by rewrite length_alter.
  - apply Forall_alter; [done|]. intros row _ Hr. by rewrite length_insert.
Qed.

(** A write inside the image raises only when the color cannot be
    converted. *)
Lemma putpixel_inside im (x y : Z) (c : Color) :
  Img.has_size w h im → 0 ≤ x < w → 0 ≤ y < h →
  Img.inside x y im = true ∧
  (is_Some (Img.putpixel x y c im) ↔ is_Some (Img.ink c)).
Proof.
  intros Hsz Hx Hy. unfold Img.putpixel.
  rewrite (inside_has_size _ _ _ Hsz).
  rewrite (proj2 (Z.leb_le 0 x)), (proj2 (Z.leb_le 0 y)),
    (proj2 (Z.ltb_lt y h)), (proj2 (Z.ltb_lt x w)) by lia.
  split; [done|]. cbn [andb].
  destruct (Img.ink c) as [c'|]; cbn [mbind option_bind]; [|done].
  split; by eexists.
Qed.

(** What the image holds after a write: the converted color. *)
Lemma getpixel_putpixel im im' (x y px py : Z) (c : Color) :
  Img.has_size w h im → Img.putpixel x y c im = Some im' →
  Img.getpixel px py im' =
    if decide (px = x ∧ py = y) then Img.ink c else Img.getpixel px py im.
Proof.
  intros Hsz. unfold Img.putpixel.
  rewrite (inside_has_size _ _ _ Hsz).
  destruct (0 <=? x) eqn:Hx; [|done].
  destruct (0 <=? y) eqn:Hy; [|done].
  destruct (y <? h) eqn:Hyh; [|done].
  destruct (x <? w) eqn:Hxw; [|done]. simpl.
  destruct (Img.ink c) as [c'|]; cbn [mbind option_bind]; [|done].
  intros [= <-].
  apply Z.leb_le in Hx, Hy. apply Z.ltb_lt in Hyh, Hxw.
  destruct Hsz as [Hlen Hrows]. unfold Img.getpixel.
  destruct (decide (px = x ∧ py = y)) as [[-> ->]|Hne].
  - rewrite (proj2 (Z.leb_le 0 x)), (proj2 (Z.leb_le 0 y)) by done. simpl.
    rewrite list_lookup_alter_eq.
    destruct (lookup_lt_is_Some_2 im (Z.to_nat y)) as [row Hrow]; [lia|].
    rewrite Hrow. simpl. apply list_lookup_insert_eq.
    rewrite Forall_lookup in Hrows. rewrite (Hrows _ _ Hrow). lia.
  - destruct ((0 <=? px) && (0 <=? py)) eqn:Hp; [|done].
    apply andb_true_iff in Hp as [Hpx Hpy]. apply Z.leb_le in Hpx, Hpy.
    destruct (decide (py = y)) as [->|Hy'].
    + rewrite list_lookup_alter_eq.
      destruct (im !! Z.to_nat y) as [row|]; [|done]. simpl.
      apply list_lookup_insert_ne. intros Heq. apply Hne. split; lia.
    + rewrite list_lookup_alter_ne; [done|lia].
Qed.

End image.

(** ** The compositor *)

Lemma atlas0_ok : atlas_ok atlas0.
Proof. apply new_has_size. Qed.

Lemma ATLAS_WIDTH_nonneg : 0 ≤ ATLAS_WIDTH.
Proof. by vm_compute. Qed.

Lemma in_atlas_spec (x y : Z) :
  in_atlas x y = true ↔ 0 ≤ x < ATLAS_WIDTH ∧ 0 ≤ y < ATLAS_HEIGHT.
Proof.
  unfold in_atlas. rewrite !andb_true_iff, !Z.leb_le, !Z.ltb_lt. lia.
Qed.

(** [set_pixel] raises exactly when the write overflows; otherwise it keeps
    the size and changes the one pixel it is given, when that pixel is in
    the atlas, to the converted color. *)
Lemma set_pixel_spec (atlas : Image) (x y : Z) (c : Color) :
  atlas_ok atlas →
  (overflows x y c → set_pixel x y c atlas = None) ∧
  (¬ overflows x y c →
   ∃ atlas', set_pixel x y c atlas = Some atlas' ∧ atlas_ok atlas' ∧
     ∀ px py, Img.getpixel px py atlas' =
       if decide (in_atlas x y = true ∧ px = x ∧ py = y) then Img.ink c
       else Img.getpixel px py atlas).
Proof.
  intros Hok. unfold overflows, set_pixel. destruct (in_atlas x y) eqn:Hin.
  - apply in_atlas_spec in Hin as [Hx Hy].
    destruct (putpixel_inside _ _ ATLAS_WIDTH_nonneg atlas x y c Hok Hx Hy)
      as [_ Hput].
    split.
    + intros [_ Hink]. apply eq_None_not_Some. rewrite Hput, Hink.
      by intros [? ?].
    + intros Hn.
      destruct (proj2 Hput) as [atlas' Hput'].
      { destruct (Img.ink c); [by eexists|]. exfalso. by apply Hn. }
      exists atlas'. split_and!; [done| |].
      * by eapply putpixel_has_size.
      * intros px py.
        rewrite (getpixel_putpixel _ _ ATLAS_WIDTH_nonneg _ _ _ _ _ _ _ Hok Hput').
        repeat case_decide; tauto.
  - split; [by intros [? _]|]. intros _.
    exists atlas. split_and!; [done..|]. intros px py.
    case_decide as Hd; [by destruct Hd|done].
Qed.

Lemma grid_entry_getpixel (pixels : PixelGrid) (x y : Z) :
  0 ≤ x → 0 ≤ y → grid_entry pixels x y = Img.getpixel x y pixels.
Proof.
  intros Hx Hy. unfold grid_entry, Img.getpixel.
  rewrite (proj2 (Z.leb_le 0 x)), (proj2 (Z.leb_le 0 y)) by done. simpl.
  rewrite index_nonneg by done.
  destruct (y <? Py.len pixels) eqn:Hlen.
  - destruct (pixels !! Z.to_nat y) as [row|]; [|done]. simpl.
    rewrite index_nonneg by done.
    destruct (x <? Py.len row) eqn:Hrow; [done|].
    apply Z.ltb_ge in Hrow. unfold Py.len in Hrow.
    symmetry. apply lookup_ge_None. lia.
  - apply Z.ltb_ge in Hlen. unfold Py.len in Hlen.
    rewrite (proj2 (lookup_ge_None pixels (Z.to_nat y))); [done|lia].
Qed.

Section blit.
Context (pixels : PixelGrid) (ox oy : Z) (atlas0 : Image).

Lemma blitted_iff (W W' : Z → Z → Prop) (atlas : Image) :
  (∀ px py, W px py ↔ W' px py) →
  blitted pixels ox oy atlas0 W atlas → blitted pixels ox oy atlas0 W' atlas.
Proof.
  intros Hiff [Hok H]. split; [done|]. intros px py.
  destruct (H px py) as [H1 H2]. rewrite <- Hiff. done.
Qed.

(** The guard makes both index operations safe: the statement writes the
    grid's entry when there is one, and does nothing otherwise. *)
Lemma blit_body_eq (x y : Z) (atlas : Image) :
  0 ≤ x → 0 ≤ y →
  blit_body pixels ox oy x y atlas =
    match Img.getpixel x y pixels with
    | Some color => set_pixel (ox + x) (oy + y) color atlas
    | None => Some atlas
    end.
Proof.
  intros Hx Hy. unfold blit_body, Img.getpixel.
  rewrite (proj2 (Z.leb_le 0 x)), (proj2 (Z.leb_le 0 y)) by done. simpl.
  rewrite index_nonneg by done.
  destruct (y <? Py.len pixels) eqn:Hlen.
  - apply Z.ltb_lt in Hlen. unfold Py.len in Hlen.
    destruct (lookup_lt_is_Some_2 pixels (Z.to_nat y)) as [row ->]; [lia|].
    simpl. rewrite index_nonneg by done.
    destruct (x <? Py.len row) eqn:Hrow.
    { apply Z.ltb_lt in Hrow. unfold Py.len in Hrow.
      by destruct (lookup_lt_is_Some_2 row (Z.to_nat x)) as [c ->]; [lia|]. }
    apply Z.ltb_ge in Hrow. unfold Py.len in Hrow.
    rewrite (proj2 (lookup_ge_None row (Z.to_nat x))); [done|lia].
  - apply Z.ltb_ge in Hlen. unfold Py.len in Hlen.
    rewrite (proj2 (lookup_ge_None pixels (Z.to_nat y))); [done|lia].
Qed.

Lemma blit_body_spec (W : Z → Z → Prop) (x y : Z) (atlas : Image) :
  0 ≤ x → 0 ≤ y → blitted pixels ox oy atlas0 W atlas →
  (entry_overflows pixels ox oy x y →
     blit_body pixels ox oy x y atlas = None) ∧
  (¬ entry_overflows pixels ox oy x y →
   ∃ atlas', blit_body pixels ox oy x y atlas = Some atlas' ∧
     blitted pixels ox oy atlas0
       (λ px py, W px py ∨ hits pixels ox oy x y px py) atlas').
Proof.
  intros Hx Hy [Hok H]. rewrite blit_body_eq by done.
  unfold entry_overflows.
  destruct (Img.getpixel x y pixels) as [c|] eqn:Hc.
  - destruct (set_pixel_spec atlas (ox + x) (oy + y) c Hok) as [Hraise Hret].
    split; [exact Hraise|]. intros Hn.
    destruct (Hret Hn) as (atlas' & -> & Hok' & Hget).
    exists atlas'. split; [done|]. split; [done|]. intros px py.
    rewrite Hget. destruct (H px py) as [H1 H2]. unfold hits.
    destruct (decide (in_atlas (ox + x) (oy + y) = true ∧
                      px = ox + x ∧ py = oy + y)) as [(Hin & -> & ->)|Hd].
    + split; [|intros Hnw; exfalso; apply Hnw; right; by eauto].
      intros _. replace (ox + x - ox) with x by lia.
      replace (oy + y - oy) with y by lia. by rewrite Hc.
    + split; [|intros Hnw; apply H2; tauto].
      intros [HW|(-> & -> & Hin & _)]; [auto|]. tauto.
  - split; [done|]. intros _.
    exists atlas. split; [done|]. split; [done|]. intros px py.
    destruct (H px py) as [H1 H2]. unfold hits. rewrite Hc.
    split; [intros [HW|(_ & _ & _ & [? ?])]; [auto|done]|].
    intros Hn; apply H2; tauto.
Qed.

(** One row of the tile. *)
Lemma blit_row_spec (W : Z → Z → Prop) (y : Z) (atlas : Image) :
  0 ≤ y → blitted pixels ox oy atlas0 W atlas →
  (row_overflows pixels ox oy y →
     Py.for_each (Py.range TILE_SIZE)
       (λ x a, blit_body pixels ox oy x y a) atlas = None) ∧
  (¬ row_overflows pixels ox oy y →
   ∃ atlas',
     Py.for_each (Py.range TILE_SIZE)
       (λ x a, blit_body pixels ox oy x y a) atlas = Some atlas' ∧
     blitted pixels ox oy atlas0
       (λ px py, W px py ∨
          ∃ x, 0 ≤ x < TILE_SIZE ∧ hits pixels ox oy x y px py) atlas').
Proof.
  intros Hy Hb.
  destruct (for_each_outcome
    (λ done a, blitted pixels ox oy atlas0
       (λ px py, W px py ∨ ∃ x, x ∈ done ∧ hits pixels ox oy x y px py) a)
    (λ x, entry_overflows pixels ox oy x y)
    (λ x a, blit_body pixels ox oy x y a) (Py.range TILE_SIZE) atlas)
    as [Hraise Hret].
  - eapply blitted_iff; [|exact Hb]. intros px py. split; [auto|].
    intros [HW|(x & Hx & _)]; [done|]. by apply elem_of_nil in Hx.
  - intros done x a Hinv Hin. apply range_elem in Hin.
    destruct (blit_body_spec _ x y a (proj1 Hin) Hy Hinv) as [Hbad Hgood].
    split; [exact Hbad|]. intros Hn.
    destruct (Hgood Hn) as (a' & Ha' & Hb').
    exists a'. split; [done|]. eapply blitted_iff; [|exact Hb'].
    intros px py. split.
    + intros [[HW|(x' & Hx' & Hh)]|Hh]; [by left| |].
      * right. exists x'. split; [|done]. apply elem_of_app. by left.
      * right. exists x. split; [|done]. apply elem_of_app. right.
        by apply list_elem_of_singleton.
    + intros [HW|(x' & Hx' & Hh)]; [by left; left|].
      apply elem_of_app in Hx' as [Hx'|Hx'].
      * left. right. by exists x'.
      * apply list_elem_of_singleton in Hx'. subst x'. by right.
  - split; [exact Hraise|]. intros Hn.
    destruct (Hret Hn) as (atlas' & Hrun & Hinv).
    exists atlas'. split; [done|]. eapply blitted_iff; [|exact Hinv].
    intros px py. by setoid_rewrite range_elem.
Qed.

Lemma blit_spec :
  atlas_ok atlas0 →
  (grid_overflows pixels ox oy → blit ox oy pixels atlas0 = None) ∧
  (¬ grid_overflows pixels ox oy →
   ∃ atlas', blit ox oy pixels atlas0 = Some atlas' ∧
     blitted pixels ox oy atlas0 (covers pixels ox oy) atlas').
Proof.
  intros Hok.
  destruct (for_each_outcome
    (λ done a, blitted pixels ox oy atlas0
       (λ px py, ∃ y, y ∈ done ∧
          ∃ x, 0 ≤ x < TILE_SIZE ∧ hits pixels ox oy x y px py) a)
    (row_overflows pixels ox oy)
    (λ y a, Py.for_each (Py.range TILE_SIZE) (λ x a, blit_body pixels ox oy x y a) a)
    (Py.range TILE_SIZE) atlas0) as [Hraise Hret].
  - split; [done|]. intros px py. split; [|done].
    intros (y & Hy & _). by apply elem_of_nil in Hy.
  - intros done y a Hinv Hin. apply range_elem in Hin.
    destruct (blit_row_spec _ y a (proj1 Hin) Hinv) as [Hbad Hgood].
    split; [exact Hbad|]. intros Hn.
    destruct (Hgood Hn) as (a' & Ha' & Hb').
    exists a'. split; [done|]. eapply blitted_iff; [|exact Hb'].
    intros px py. split.
    + intros [(y' & Hy' & Hh)|Hh].
      * exists y'. split; [|done]. apply elem_of_app. by left.
      * exists y. split; [|done]. apply elem_of_app. right.
        by apply list_elem_of_singleton.
    + intros (y' & Hy' & Hh). apply elem_of_app in Hy' as [Hy'|Hy'].
      * left. by exists y'.
      * apply list_elem_of_singleton in Hy'. subst y'. by right.
  - split; [exact Hraise|]. intros Hn.
    destruct (Hret Hn) as (atlas' & Hrun & Hinv).
    exists atlas'. split; [exact Hrun|]. eapply blitted_iff; [|exact Hinv].
    intros px py. unfold covers, hits. setoid_rewrite range_elem. split.
    + intros (y & Hy & x & Hx & -> & -> & Hin & Hc).
      replace (ox + x - ox) with x by lia.
      replace (oy + y - oy) with y by lia. done.
    + intros (Hin & Hx & Hy & Hc).
      exists (py - oy). split; [lia|]. exists (px - ox).
      split; [lia|]. split_and!; [lia|lia|done..].
Qed.

(** The tile has an entry whose write raises: the entry is one the guard
    lets through, its target is in the atlas, and its color cannot be
    converted. *)
Lemma grid_overflows_spec :
  grid_overflows pixels ox oy ↔
  ∃ x y c, 0 ≤ x < TILE_SIZE ∧ 0 ≤ y < TILE_SIZE ∧
    grid_entry pixels x y = Some c ∧
    in_atlas (ox + x) (oy + y) = true ∧ Img.ink c = None.
Proof.
  unfold grid_overflows, row_overflows. rewrite Exists_exists. split.
  - intros (y & Hy & Hrow). apply Exists_exists in Hrow as (x & Hx & He).
    apply range_elem in Hx, Hy. unfold entry_overflows in He.
    destruct (Img.getpixel x y pixels) as [c|] eqn:Hc; [|done].
    destruct He as [Hin Hink]. exists x, y, c.
    rewrite grid_entry_getpixel by lia. done.
  - intros (x & y & c & Hx & Hy & Hc & Hin & Hink).
    rewrite grid_entry_getpixel in Hc by lia.
    exists y. split; [by apply range_elem|].
    apply Exists_exists. exists x. split; [by apply range_elem|].
    unfold entry_overflows. rewrite Hc. done.
Qed.

(** A grid of colors whose channels are bytes is drawn without error. *)
Lemma valid_no_overflow :
  Forall (Forall valid_color) pixels → ¬ grid_overflows pixels ox oy.
Proof.
  intros Hvalid. rewrite grid_overflows_spec.
  intros (x & y & c & Hx & Hy & Hc & _ & Hink).
  rewrite grid_entry_getpixel in Hc by lia.
  rewrite (ink_valid c) in Hink; [done|].
  by eapply getpixel_Forall.
Qed.

End blit.

(** [draw_tile] at any index: it raises exactly when an entry overflows;
    otherwise it keeps the size of the atlas and leaves exactly the covered
    pixels holding the bytes of the grid's entries. *)
Lemma draw_tile_spec (tile_idx : Z) (pixels : PixelGrid) (atlas : Image) :
  atlas_ok atlas →
  (grid_overflows pixels (tile_origin tile_idx).1 (tile_origin tile_idx).2 →
     draw_tile tile_idx pixels atlas = None) ∧
  (¬ grid_overflows pixels (tile_origin tile_idx).1 (tile_origin tile_idx).2 →
   ∃ atlas', draw_tile tile_idx pixels atlas = Some atlas' ∧
     blitted pixels (tile_origin tile_idx).1 (tile_origin tile_idx).2 atlas
       (covers pixels (tile_origin tile_idx).1 (tile_origin tile_idx).2) atlas').
Proof.
  intros Hok. unfold draw_tile.
  destruct (tile_origin tile_idx) as [ox oy]. by apply blit_spec.
Qed.

(** A grid of colors whose channels are bytes is drawn, and holds. *)
Lemma draw_tile_valid (tile_idx : Z) (pixels : PixelGrid) (atlas : Image) :
  atlas_ok atlas → Forall (Forall valid_color) pixels →
  ∃ atlas', draw_tile tile_idx pixels atlas = Some atlas' ∧
    blitted pixels (tile_origin tile_idx).1 (tile_origin tile_idx).2 atlas
      (covers pixels (tile_origin tile_idx).1 (tile_origin tile_idx).2) atlas'.
Proof.
  intros Hok Hvalid. apply draw_tile_spec; [done|].
  by apply valid_no_overflow.
Qed.

(** ** Reading a grid *)

Lemma row_index {A} (f : Z → A) (n x : Z) :
  0 ≤ x < n → Py.index (f <$> Py.range n) x = Some (f x).
Proof.
  intros Hx. rewrite index_nonneg by lia.
  rewrite list_lookup_fmap, range_lookup by lia. simpl. f_equal. f_equal. lia.
Qed.

(** The grid built by the generator loops holds [px x y] at [[y][x]]. *)
Lemma pixel_rows_get (px : Z → Z → Color) (x y : Z) :
  0 ≤ x < TILE_SIZE → 0 ≤ y < TILE_SIZE →
  grid_get (pixel_rows px) x y = Some (px x y).
Proof.
  intros Hx Hy. unfold grid_get, pixel_rows.
  rewrite (row_index _ TILE_SIZE y) by done. cbn [mbind option_bind].
  by rewrite (row_index _ TILE_SIZE x).
Qed.

Lemma pixel_rows_Forall (P : Color → Prop) (px : Z → Z → Color) :
  (∀ x y, P (px x y)) → Forall (Forall P) (pixel_rows px).
Proof.
  intros H. unfold pixel_rows.
  rewrite Forall_fmap. apply Forall_forall. intros y _.
  change (Forall P ((λ x, px x y) <$> Py.range TILE_SIZE)).
  rewrite Forall_fmap. apply Forall_forall. intros x _. apply H.
Qed.

Lemma mapM_pointwise {A B} (f : A → option B) (g : A → B) (l : list A) :
  (∀ a, a ∈ l → f a = Some (g a)) → mapM f l = Some (g <$> l).
Proof.
  intros H. apply mapM_Some_2.
  induction l as [|a l IH]; simpl; constructor.
  - apply H. by left.
  - apply IH. intros b Hb. apply H. by right.
Qed.

(** When every pixel is computed without raising, the fallible loops build
    the same grid as the plain ones. *)
Lemma pixel_rowsM_pure (px : Z → Z → option Color) (f : Z → Z → Color) :
  (∀ x y, 0 ≤ x < TILE_SIZE → 0 ≤ y < TILE_SIZE → px x y = Some (f x y)) →
  pixel_rowsM px = Some (pixel_rows f).
Proof.
  intros H. unfold pixel_rowsM, pixel_rows.
  apply mapM_pointwise. intros y Hy. apply range_elem in Hy.
  apply mapM_pointwise. intros x Hx. apply range_elem in Hx. by apply H.
Qed.

Lemma pixel_rowsM_Forall (P : Color → Prop) (px : Z → Z → option Color)
    (pixels : PixelGrid) :
  (∀ x y c, px x y = Some c → P c) →
  pixel_rowsM px = Some pixels → Forall (Forall P) pixels.
Proof.
  intros H Hrun. unfold pixel_rowsM in Hrun.
  apply mapM_Some_1 in Hrun.
  induction Hrun as [|y row ys rows Hrow _ IH]; constructor; [|done].
  apply mapM_Some_1 in Hrow. clear IH.
  induction Hrow as [|x c xs cs Hc _ IH]; constructor; [|done].
  by eapply H.
Qed.

(** What a finished blit leaves at the tile's own positions, and outside
    the tile. *)
Lemma blitted_read (pixels : PixelGrid) (ox oy : Z) (atlas atlas' : Image)
    (x y : Z) :
  blitted pixels ox oy atlas (covers pixels ox oy) atlas' →
  0 ≤ x < TILE_SIZE → 0 ≤ y < TILE_SIZE →
  Img.getpixel (ox + x) (oy + y) atlas' =
    match grid_entry pixels x y with
    | Some c => if in_atlas (ox + x) (oy + y) then Img.ink c
                else Img.getpixel (ox + x) (oy + y) atlas
    | None => Img.getpixel (ox + x) (oy + y) atlas
    end.
Proof.
  intros [_ H] Hx Hy. destruct (H (ox + x) (oy + y)) as [Hin Hout].
  unfold covers in Hin, Hout.
  replace (ox + x - ox) with x in Hin, Hout by lia.
  replace (oy + y - oy) with y in Hin, Hout by lia.
  rewrite grid_entry_getpixel by lia.
  destruct (Img.getpixel x y pixels) as [c|] eqn:Hc.
  - destruct (in_atlas (ox + x) (oy + y)) eqn:Hatlas.
    + rewrite Hin by eauto. reflexivity.
    + apply Hout. intros (? & _). done.
  - apply Hout. intros (_ & _ & _ & [? ?]). done.
Qed.

Lemma blitted_frame (pixels : PixelGrid) (ox oy : Z) (atlas atlas' : Image)
    (px py : Z) :
  blitted pixels ox oy atlas (covers pixels ox oy) atlas' →
  ¬ (0 ≤ px - ox < TILE_SIZE ∧ 0 ≤ py - oy < TILE_SIZE) →
  Img.getpixel px py atlas' = Img.getpixel px py atlas.
Proof.
  intros [_ H] Hout. destruct (H px py) as [_ Hframe].
  apply Hframe. intros (_ & ? & ? & _). tauto.
Qed.

(** ** The generators *)

Lemma channel_clamp (v lo hi : Z) :
  0 ≤ lo → lo ≤ hi → hi ≤ 255 → channel (clamp v lo hi).
Proof. intros. pose proof (clamp_range v lo hi). unfold channel. lia. Qed.

Lemma channel_const (v : Z) : (0 <=? v) && (v <=? 255) = true → channel v.
Proof. unfold channel. rewrite andb_true_iff, !Z.leb_le. done. Qed.

(** Splits the cases of a pixel function and checks each resulting color:
    a channel is a clamped value or a constant. *)
Ltac px_cases :=
  cbv beta iota zeta;
  repeat (case_match; cbv beta iota zeta).

Ltac valid_channels :=
  unfold valid_color; cbn [fst snd]; split_and!;
  first [ apply channel_clamp; lia | apply channel_const; reflexivity ].

Ltac valid_px := px_cases; valid_channels.

Lemma stone_px_valid x y : valid_color (stone_px x y).
Proof. unfold stone_px. valid_px. Qed.

Lemma cobblestone_px_valid x y : valid_color (cobblestone_px x y).
Proof. unfold cobblestone_px. valid_px. Qed.

Lemma dirt_px_valid x y : valid_color (dirt_px x y).
Proof. unfold dirt_px. valid_px. Qed.

Lemma grass_top_px_valid x y : valid_color (grass_top_px x y).
Proof. unfold grass_top_px. valid_px. Qed.

Lemma sand_px_valid x y : valid_color (sand_px x y).
Proof. unfold sand_px. valid_px. Qed.

Lemma gravel_px_valid x y : valid_color (gravel_px x y).
Proof. unfold gravel_px. valid_px. Qed.

Lemma log_bark_px_valid x y : valid_color (log_bark_px x y).
Proof. unfold log_bark_px. valid_px. Qed.

Lemma leaves_px_valid x y : valid_color (leaves_px x y).
Proof. unfold leaves_px. valid_px. Qed.

Lemma water_px_valid x y : valid_color (water_px x y).
Proof. unfold water_px. valid_px. Qed.

Lemma bedrock_px_valid x y : valid_color (bedrock_px x y).
Proof. unfold bedrock_px. valid_px. Qed.

Lemma planks_px_valid x y : valid_color (planks_px x y).
Proof. unfold planks_px. valid_px. Qed.

Lemma solid_item_px_valid r g b mask x y :
  valid_color (solid_item_px r g b mask x y).
Proof. unfold solid_item_px. valid_px. Qed.

Lemma glass_px_valid x y : valid_color (glass_px x y).
Proof. unfold glass_px. valid_px. Qed.

Lemma lava_px_valid x y : valid_color (lava_px x y).
Proof. unfold lava_px. valid_px. Qed.

Lemma obsidian_px_valid x y : valid_color (obsidian_px x y).
Proof. unfold obsidian_px. valid_px. Qed.

Lemma wheat_px_valid stage height x y : valid_color (wheat_px stage height x y).
Proof. unfold wheat_px. valid_px. Qed.

Lemma hoe_icon_px_valid x y : valid_color (hoe_icon_px x y).
Proof. unfold hoe_icon_px. valid_px. Qed.

Lemma seeds_icon_px_valid x y : valid_color (seeds_icon_px x y).
Proof. unfold seeds_icon_px. valid_px. Qed.

Lemma wheat_item_px_valid x y : valid_color (wheat_item_px x y).
Proof. unfold wheat_item_px. valid_px. Qed.

Lemma log_end_px_valid x y c : log_end_px x y = Some c → valid_color c.
Proof.
  unfold log_end_px. cbv beta iota zeta. intros H.
  repeat match type of H with
  | context [Py.int_of_float ?f] =>
      destruct (Py.int_of_float f); cbn [mbind option_bind] in H; [|done]
  end.
  injection H as <-. valid_px.
Qed.

(** The two index operations of [grid[y][x]] succeed on a generated grid. *)
Lemma pixel_rows_read (px : Z → Z → Color) (x y : Z) :
  0 ≤ x < TILE_SIZE → 0 ≤ y < TILE_SIZE →
  (row ← Py.index (pixel_rows px) y; Py.index row x) = Some (px x y).
Proof. apply pixel_rows_get. Qed.

Lemma gen_grass_side_eq : gen_grass_side = Some (pixel_rows grass_side_px).
Proof.
  unfold gen_grass_side. apply pixel_rowsM_pure. intros x y Hx Hy.
  unfold grass_side_px, gen_grass_top, gen_dirt.
  destruct (y <? 3); by apply pixel_rows_read.
Qed.

Lemma gen_ore_eq (tile_idx ore_r ore_g ore_b : Z) :
  gen_ore tile_idx ore_r ore_g ore_b =
    Some (pixel_rows (ore_px tile_idx ore_r ore_g ore_b)).
Proof.
  unfold gen_ore. apply pixel_rowsM_pure. intros x y Hx Hy.
  unfold ore_px, gen_stone.
  destruct (is_vein tile_idx x y); [done|]. by apply pixel_rows_read.
Qed.

Lemma gen_farmland_eq : gen_farmland = Some (pixel_rows farmland_px).
Proof.
  unfold gen_farmland. apply pixel_rowsM_pure. intros x y Hx Hy.
  unfold gen_dirt, pixel_rows. rewrite (row_index _ TILE_SIZE y) by done.
  cbn [mbind option_bind]. rewrite (row_index _ TILE_SIZE x) by done.
  cbn [mbind option_bind]. unfold farmland_px.
  destruct (dirt_px x y) as [[[r g] b] a]. by destruct (y mod 4 <? 2).
Qed.

Lemma gen_wheat_stage_eq (stage : Z) (pixels : PixelGrid) :
  gen_wheat_stage stage = Some pixels ↔
  ∃ height, Py.index wheat_heights stage = Some height ∧
            pixels = pixel_rows (wheat_px stage height).
Proof.
  unfold gen_wheat_stage. destruct (Py.index wheat_heights stage) as [h|]; simpl.
  - split; [intros [= <-]; by eauto|]. by intros (? & [= <-] & ->).
  - split; [done|]. by intros (? & ? & _).
Qed.

Lemma grass_side_px_valid x y : valid_color (grass_side_px x y).
Proof.
  unfold grass_side_px.
  destruct (y <? 3); [apply grass_top_px_valid|apply dirt_px_valid].
Qed.

Lemma ore_px_valid idx r g b x y : valid_color (ore_px idx r g b x y).
Proof.
  unfold ore_px. destruct (is_vein idx x y); [valid_px|apply stone_px_valid].
Qed.

Lemma farmland_px_valid x y : valid_color (farmland_px x y).
Proof.
  unfold farmland_px. pose proof (dirt_px_valid x y) as Hd.
  destruct (dirt_px x y) as [[[r g] b] a].
  destruct Hd as (_ & _ & _ & Ha). cbn [fst snd] in Ha.
  destruct (y mod 4 <? 2); unfold valid_color; cbn [fst snd]; split_and!;
    first [ apply channel_clamp; lia | exact Ha ].
Qed.

Lemma gen_air_valid : Forall (Forall valid_color) gen_air.
Proof.
  unfold gen_air. rewrite Forall_fmap. apply Forall_forall. intros y _.
  apply Forall_replicate. valid_channels.
Qed.

Create HintDb px_valid.
#[local] Hint Resolve stone_px_valid cobblestone_px_valid dirt_px_valid
  grass_top_px_valid sand_px_valid gravel_px_valid log_bark_px_valid
  leaves_px_valid water_px_valid bedrock_px_valid planks_px_valid
  solid_item_px_valid glass_px_valid lava_px_valid obsidian_px_valid
  wheat_px_valid hoe_icon_px_valid seeds_icon_px_valid wheat_item_px_valid
  grass_side_px_valid ore_px_valid farmland_px_valid : px_valid.

(** A generator that is the plain loops over a pixel function. *)
Ltac plain_grid_valid :=
  lazymatch goal with
  | Hgen : Some ?g = Some _ |- _ =>
      injection Hgen as <-;
      lazymatch g with
      | ?f _ _ _ _ => unfold f
      | _ => unfold g
      end;
      apply pixel_rows_Forall; auto with px_valid
  end.

(** Every grid a generator returns holds valid colors only. *)
Lemma generate_valid (g : Gen) (pixels : PixelGrid) :
  generate g = Some pixels → Forall (Forall valid_color) pixels.
Proof.
  destruct g; cbn [generate]; intros Hgen.
  - injection Hgen as <-. exact gen_air_valid.
  - plain_grid_valid.
  - plain_grid_valid.
  - plain_grid_valid.
  - plain_grid_valid.
  - rewrite gen_grass_side_eq in Hgen. injection Hgen as <-.
    apply pixel_rows_Forall. auto with px_valid.
  - plain_grid_valid.
  - plain_grid_valid.
  - eapply pixel_rowsM_Forall; [|exact Hgen]. apply log_end_px_valid.
  - plain_grid_valid.
  - plain_grid_valid.
  - plain_grid_valid.
  - rewrite gen_ore_eq in Hgen. injection Hgen as <-.
    apply pixel_rows_Forall. auto with px_valid.
  - plain_grid_valid.
  - plain_grid_valid.
  - plain_grid_valid.
  - plain_grid_valid.
  - plain_grid_valid.
  - plain_grid_valid.
  - rewrite gen_farmland_eq in Hgen. injection Hgen as <-.
    apply pixel_rows_Forall. auto with px_valid.
  - apply gen_wheat_stage_eq in Hgen as (h & _ & ->).
    apply pixel_rows_Forall. auto with px_valid.
  - plain_grid_valid.
  - plain_grid_valid.
  - plain_grid_valid.
Qed.

(** ** Checks over a tile *)

(** A check made at each of the 256 positions of a tile. *)
Lemma tile_forallb (P : Z → Z → bool) :
  forallb (λ y, forallb (λ x, P x y) (Py.range TILE_SIZE))
          (Py.range TILE_SIZE) = true →
  ∀ x y, 0 ≤ x < TILE_SIZE → 0 ≤ y < TILE_SIZE → P x y = true.
Proof.
  intros H x y Hx Hy. rewrite forallb_forall in H.
  specialize (H y). rewrite forallb_forall in H.
  apply H; apply list_elem_of_In, range_elem; done.
Qed.

(** ** The wheat family *)

(** Above the crop every pixel is transparent. *)
Lemma wheat_px_above (stage height x y : Z) :
  height ≤ TILE_SIZE - 1 - y → wheat_px stage height x y = (0, 0, 0, 0).
Proof.
  intros H. unfold wheat_px. cbv beta iota zeta.
  rewrite (proj2 (Z.leb_le _ _) H). by repeat case_match.
Qed.

(** Below the top of the crop, the stalk column [x = 3] is opaque. *)
Lemma wheat_px_stalk (stage height y : Z) :
  TILE_SIZE - 1 - y < height → alpha (wheat_px stage height 3 y) = 255.
Proof.
  intros H. unfold wheat_px. cbv beta iota zeta.
  rewrite (proj2 (Z.leb_gt _ _) H).
  change (Py.mem 3 [3; 7; 11; 14]) with true.
  by repeat case_match.
Qed.

Lemma wheat_heights_cases (stage height : Z) :
  0 ≤ stage ≤ 7 → Py.index wheat_heights stage = Some height →
  (stage, height) ∈
    [(0, 4); (1, 6); (2, 8); (3, 10); (4, 11); (5, 13); (6, 14); (7, 16)].
Proof.
  intros Hs Hh.
  assert (stage = 0 ∨ stage = 1 ∨ stage = 2 ∨ stage = 3 ∨
          stage = 4 ∨ stage = 5 ∨ stage = 6 ∨ stage = 7) as Hcases by lia.
  destruct_or!; subst stage; vm_compute in Hh; injection Hh as <-;
    repeat constructor.
Qed.

(** ** The pipeline *)

(** Distinct indices have disjoint regions. *)
Lemma tiles_disjoint (i j x y : Z) :
  0 ≤ x < TILE_SIZE → 0 ≤ y < TILE_SIZE →
  in_tile i ((tile_origin j).1 + x) ((tile_origin j).2 + y) → i = j.
Proof.
  unfold in_tile, tile_origin, TILE_SIZE, TILES_PER_ROW. cbn [fst snd].
  intros Hx Hy [Hcol Hrow].
  pose proof (Z.div_mod i 8 ltac:(lia)). pose proof (Z.div_mod j 8 ltac:(lia)).
  pose proof (Z.mod_pos_bound i 8 ltac:(lia)).
  pose proof (Z.mod_pos_bound j 8 ltac:(lia)). lia.
Qed.

Lemma tile_in_atlas (j x y : Z) :
  0 ≤ j < TILE_COUNT → 0 ≤ x < TILE_SIZE → 0 ≤ y < TILE_SIZE →
  in_atlas ((tile_origin j).1 + x) ((tile_origin j).2 + y) = true.
Proof.
  intros Hj Hx Hy. apply in_atlas_spec.
  unfold tile_origin, ATLAS_WIDTH, ATLAS_HEIGHT, TILE_COUNT, TILE_SIZE,
    TILES_PER_ROW in *. cbn [fst snd].
  change ((64 + 8 - 1) / 8 * 16) with 128.
  pose proof (Z.div_mod j 8 ltac:(lia)).
  pose proof (Z.mod_pos_bound j 8 ltac:(lia)). lia.
Qed.

Lemma atlas0_get (px py : Z) :
  in_atlas px py = true → Img.getpixel px py atlas0 = Some (0, 0, 0, 0).
Proof.
  intros Hin. apply in_atlas_spec in Hin as [Hx Hy].
  unfold Img.getpixel, atlas0, Img.new.
  rewrite (proj2 (Z.leb_le 0 px)), (proj2 (Z.leb_le 0 py)) by lia.
  cbn [andb]. rewrite lookup_replicate_2 by lia.
  cbn [mbind option_bind]. apply lookup_replicate_2. lia.
Qed.

(** The statements of a manifest touch only the regions of their tiles. *)
Lemma run_frame (m : list (Z * Gen)) (atlas atlas' : Image) :
  atlas_ok atlas → run m atlas = Some atlas' →
  atlas_ok atlas' ∧
  ∀ px py, (∀ st, st ∈ m → ¬ in_tile st.1 px py) →
    Img.getpixel px py atlas' = Img.getpixel px py atlas.
Proof.
  revert atlas. induction m as [|st m IH]; intros atlas Hok; simpl.
  - intros [= <-]. done.
  - unfold exec_draw.
    destruct (generate st.2) as [pixels|] eqn:Hgen; simpl; [|done].
    destruct (draw_tile_valid st.1 pixels atlas Hok (generate_valid _ _ Hgen))
      as (atlas1 & -> & Hb).
    simpl. intros Hrun.
    destruct (IH atlas1 (proj1 Hb) Hrun) as [Hok' Hframe].
    split; [done|]. intros px py Hout.
    rewrite Hframe by (intros st' Hst'; apply Hout; by right).
    eapply blitted_frame; [exact Hb|]. apply (Hout st). by left.
Qed.

(** *** Totality of the generators *)

Lemma gen_log_end_total : is_Some gen_log_end.
Proof.
  assert (match gen_log_end with Some _ => true | None => false end = true) as H
    by (by vm_compute).
  destruct gen_log_end; [by eexists|done].
Qed.

Lemma generate_total (g : Gen) : stage_ok g = true → is_Some (generate g).
Proof.
  destruct g; cbn [generate stage_ok]; intros Hs;
    try lazymatch goal with |- is_Some (Some _) => eexists; reflexivity end.
  - rewrite gen_grass_side_eq. by eexists.
  - apply gen_log_end_total.
  - rewrite gen_ore_eq. by eexists.
  - rewrite gen_farmland_eq. by eexists.
  - apply andb_true_iff in Hs as [H0 H7]. apply Z.leb_le in H0, H7.
    destruct (index_in_range wheat_heights stage) as [h Hh].
    { unfold Py.len. simpl. lia. }
    exists (pixel_rows (wheat_px stage h)). apply gen_wheat_stage_eq. eauto.
Qed.

Lemma run_total (m : list (Z * Gen)) (atlas : Image) :
  atlas_ok atlas → forallb (λ st, stage_ok st.2) m = true →
  is_Some (run m atlas).
Proof.
  revert atlas. induction m as [|st m IH]; intros atlas Hok Hm; simpl.
  - by eexists.
  - simpl in Hm. apply andb_true_iff in Hm as [Hst Hm].
    unfold exec_draw. destruct (generate_total st.2 Hst) as [pixels Hgen].
    rewrite Hgen. simpl.
    destruct (draw_tile_valid st.1 pixels atlas Hok (generate_valid _ _ Hgen))
      as (atlas1 & -> & Hb).
    simpl. apply IH; [apply Hb|done].
Qed.

Lemma main_total : is_Some main.
Proof. apply run_total; [apply atlas0_ok|reflexivity]. Qed.

(** The indices the manifest draws. *)
Lemma manifest_indices :
  manifest.*1 =
    [0; 1; 2; 3; 4; 5; 6; 7; 8; 9; 10; 11; 12; 13; 14; 15; 16; 17; 18; 19;
     31; 32; 33; 34; 37; 38; 39; 46; 47; 48;
     49; 50; 51; 52; 53; 54; 55; 56; 57; 58; 59].
Proof. reflexivity. Qed.

(** A slot no statement draws stays as the blank atlas had it. *)
Lemma unlisted_slot (m : list (Z * Gen)) (final : Image) (j x y : Z) :
  run m atlas0 = Some final → 0 ≤ j < TILE_COUNT → j ∉ m.*1 →
  0 ≤ x < TILE_SIZE → 0 ≤ y < TILE_SIZE →
  Img.getpixel ((tile_origin j).1 + x) ((tile_origin j).2 + y) final =
    Some (0, 0, 0, 0).
Proof.
  intros Hrun Hj Hnot Hx Hy.
  destruct (run_frame m atlas0 final atlas0_ok Hrun) as [_ Hframe].
  rewrite Hframe; [by apply atlas0_get, tile_in_atlas|].
  intros st Hst Htile. apply Hnot.
  apply tiles_disjoint in Htile; [|done..]. subst j.
  apply list_elem_of_fmap. exists st. split; [reflexivity|exact Hst].
Qed.

(** * The specified properties *)

(** C2: for all integers [x], [y], [seed], [noise] computes
    [n = x*374761393 + y*668265263 + seed*1597463007], then
    [n = (n XOR (n >> 13)) * 1274126177], and returns
    [(n XOR (n >> 16)) AND 0xFF].  The function takes no state: its value
    is determined by its three arguments. *)
Theorem noise_contract (x y seed : Z) : noise x y seed = hash_spec x y seed.
Proof.
  unfold noise, hash_spec.
  rewrite !Z.shiftr_div_pow2 by lia.
  change 255 with (Z.ones 8). by rewrite Z.land_ones by lia.
Qed.

(** C3: [noise] returns a byte for all integer arguments, and every channel
    of every pixel of every grid a generator returns lies in [0, 255]. *)
Theorem range_invariant :
  (∀ x y seed, 0 ≤ noise x y seed ≤ 255) ∧
  (∀ g pixels row r gr b a,
     generate g = Some pixels → row ∈ pixels → (r, gr, b, a) ∈ row →
     0 ≤ r ≤ 255 ∧ 0 ≤ gr ≤ 255 ∧ 0 ≤ b ≤ 255 ∧ 0 ≤ a ≤ 255).
Proof.
  split; [apply noise_range|].
  intros g pixels row r gr b a Hgen Hrow Hc.
  apply generate_valid in Hgen.
  rewrite Forall_forall in Hgen. specialize (Hgen row Hrow).
  rewrite Forall_forall in Hgen. exact (Hgen _ Hc).
Qed.

Lemma range_invariant_witness :
  generate Stone = Some gen_stone ∧
  ((λ x, stone_px x 0) <$> Py.range TILE_SIZE) ∈ gen_stone ∧
  stone_px 0 0 ∈ ((λ x, stone_px x 0) <$> Py.range TILE_SIZE) ∧
  0 ≤ 164 ≤ 255 ∧ 0 ≤ 164 ≤ 255 ∧ 0 ≤ 164 ≤ 255 ∧ 0 ≤ 255 ≤ 255.
Proof.
  assert (((λ x, stone_px x 0) <$> Py.range TILE_SIZE) ∈ gen_stone) as Hrow.
  { vm_compute. constructor. }
  assert ((164, 164, 164, 255) ∈ ((λ x, stone_px x 0) <$> Py.range TILE_SIZE)) as Hc.
  { vm_compute. constructor. }
  split; [reflexivity|]. split; [exact Hrow|]. split; [exact Hc|].
  exact (proj2 range_invariant Stone gen_stone _ 164 164 164 255 eq_refl Hrow Hc).
Defined.

(** C4: at every position of the tile, the grass-side pixel is the grass-top
    pixel when [y < 3] and the dirt pixel when [y >= 3]; the two base tiles
    differ at every position, so each equality holds in that band only. *)
Theorem grass_side_composition (x y : Z) :
  0 ≤ x < 16 → 0 ≤ y < 16 →
  ∃ pixels c,
    gen_grass_side = Some pixels ∧ grid_get pixels x y = Some c ∧
    (grid_get gen_grass_top x y = Some c ↔ y < 3) ∧
    (grid_get gen_dirt x y = Some c ↔ 3 ≤ y).
Proof.
  intros Hx Hy. exists (pixel_rows grass_side_px), (grass_side_px x y).
  split; [apply gen_grass_side_eq|]. split; [by apply pixel_rows_get|].
  unfold gen_grass_top, gen_dirt. rewrite !pixel_rows_get by done.
  assert (grass_top_px x y ≠ dirt_px x y) as Hne.
  { pose proof (tile_forallb
      (λ x y, negb (bool_decide (grass_top_px x y = dirt_px x y)))) as Hall.
    specialize (Hall ltac:(by vm_compute) x y Hx Hy).
    apply negb_true_iff, bool_decide_eq_false in Hall. done. }
  unfold grass_side_px. destruct (y <? 3) eqn:Hband.
  - apply Z.ltb_lt in Hband. split; [done|].
    split; [intros [= Heq]; by symmetry in Heq|lia].
  - apply Z.ltb_ge in Hband. split; [|done].
    split; [intros [= Heq]; done|lia].
Qed.

Lemma grass_side_composition_witness :
  0 ≤ 5 < 16 ∧ 0 ≤ 2 < 16 ∧
  ∃ pixels c,
    gen_grass_side = Some pixels ∧ grid_get pixels 5 2 = Some c ∧
    (grid_get gen_grass_top 5 2 = Some c ↔ 2 < 3) ∧
    (grid_get gen_dirt 5 2 = Some c ↔ 3 ≤ 2).
Proof.
  split; [lia|]. split; [lia|]. apply (grass_side_composition 5 2); lia.
Defined.

(** C5: for every ore instance and every position of the tile where the
    vein test [noise(x*3+7, y*5+11, id) mod 16 < 3] fails, the ore pixel is
    the stone pixel at that position. *)
Theorem ore_exactness (tile_idx ore_r ore_g ore_b x y : Z) :
  0 ≤ x < 16 → 0 ≤ y < 16 →
  ¬ (noise (x * 3 + 7) (y * 5 + 11) tile_idx mod 16 < 3) →
  ∃ pixels c,
    gen_ore tile_idx ore_r ore_g ore_b = Some pixels ∧
    grid_get pixels x y = Some c ∧ grid_get gen_stone x y = Some c.
Proof.
  intros Hx Hy Hvein.
  exists (pixel_rows (ore_px tile_idx ore_r ore_g ore_b)), (stone_px x y).
  split; [apply gen_ore_eq|].
  unfold gen_stone. rewrite !pixel_rows_get by done. split; [|done].
  unfold ore_px, is_vein.
  by rewrite (proj2 (Z.ltb_ge _ _)) by lia.
Qed.

Lemma ore_exactness_witness :
  0 ≤ 0 < 16 ∧ 0 ≤ 0 < 16 ∧
  ¬ (noise (0 * 3 + 7) (0 * 5 + 11) 12 mod 16 < 3) ∧
  ∃ pixels c,
    gen_ore 12 40 40 40 = Some pixels ∧
    grid_get pixels 0 0 = Some c ∧ grid_get gen_stone 0 0 = Some c.
Proof.
  assert (¬ (noise (0 * 3 + 7) (0 * 5 + 11) 12 mod 16 < 3)) as Hvein.
  { vm_compute. intros H. discriminate H. }
  split; [lia|]. split; [lia|]. split; [exact Hvein|].
  apply (ore_exactness 12 40 40 40 0 0); [lia|lia|exact Hvein].
Defined.

(** C6: for every stage 0..7 the grid of [gen_wheat_stage] has a visible
    crop height equal to the entry of the height table: each row whose
    distance from the bottom is below it has a pixel with nonzero alpha, each
    row at or above it is fully transparent; and the heights do not decrease
    with the stage. *)
Theorem wheat_height (stage : Z) :
  0 ≤ stage ≤ 7 →
  ∃ pixels height,
    gen_wheat_stage stage = Some pixels ∧
    Py.index [4; 6; 8; 10; 11; 13; 14; 16] stage = Some height ∧
    visible_height pixels = height ∧
    (∀ y, 0 ≤ y < 16 →
       (TILE_SIZE - 1 - y < height →
          ∃ x c, grid_get pixels x y = Some c ∧ alpha c ≠ 0) ∧
       (height ≤ TILE_SIZE - 1 - y →
          ∀ x, 0 ≤ x < 16 → grid_get pixels x y = Some (0, 0, 0, 0))) ∧
    (∀ stage' height',
       stage ≤ stage' ≤ 7 →
       Py.index [4; 6; 8; 10; 11; 13; 14; 16] stage' = Some height' →
       height ≤ height').
Proof.
  intros Hs.
  destruct (index_in_range wheat_heights stage) as [h Hh].
  { unfold Py.len. simpl. lia. }
  exists (pixel_rows (wheat_px stage h)), h.
  pose proof (wheat_heights_cases stage h Hs Hh) as Hcases.
  split_and!.
  - apply gen_wheat_stage_eq. by exists h.
  - exact Hh.
  - clear Hh. repeat (apply elem_of_cons in Hcases as [[= -> ->]|Hcases];
      [by vm_compute|]). by apply elem_of_nil in Hcases.
  - intros y Hy. split.
    + intros Hlow. exists 3, (wheat_px stage h 3 y).
      split; [by apply pixel_rows_get|].
      rewrite wheat_px_stalk by done. done.
    + intros Hhigh x Hx. rewrite pixel_rows_get by done.
      by rewrite wheat_px_above.
  - intros stage' h' Hs' Hh'.
    pose proof (wheat_heights_cases stage' h' ltac:(lia) Hh') as Hcases'.
    clear Hh Hh'.
    repeat (apply elem_of_cons in Hcases as [[= -> ->]|Hcases];
      [repeat (apply elem_of_cons in Hcases' as [[= -> ->]|Hcases']; [lia|]);
       by apply elem_of_nil in Hcases'|]).
    by apply elem_of_nil in Hcases.
Qed.

Lemma wheat_height_witness :
  0 ≤ 4 ≤ 7 ∧
  ∃ pixels height,
    gen_wheat_stage 4 = Some pixels ∧
    Py.index [4; 6; 8; 10; 11; 13; 14; 16] 4 = Some height ∧
    visible_height pixels = height ∧
    (∀ y, 0 ≤ y < 16 →
       (TILE_SIZE - 1 - y < height →
          ∃ x c, grid_get pixels x y = Some c ∧ alpha c ≠ 0) ∧
       (height ≤ TILE_SIZE - 1 - y →
          ∀ x, 0 ≤ x < 16 → grid_get pixels x y = Some (0, 0, 0, 0))) ∧
    (∀ stage' height',
       4 ≤ stage' ≤ 7 →
       Py.index [4; 6; 8; 10; 11; 13; 14; 16] stage' = Some height' →
       height ≤ height').
Proof. split; [lia|]. apply (wheat_height 4). lia. Defined.

(** C7: [set_pixel] writes into the atlas only at a coordinate inside it:
    a write outside, of any tuple of integers, leaves the atlas as it is and
    raises nothing; a write inside stores the color, each channel cut to a
    byte, at that one pixel, and raises only when the library cannot
    convert the color, which does not happen for a color whose channels are
    bytes.  Drawing a tile at any origin, also one that puts part of the
    tile outside the buffer, never fails on account of the bounds: it
    raises exactly when an entry whose target lies inside the buffer cannot
    be converted, so never for a grid of convertible colors; when it
    returns it has kept the size of the buffer and written only the entries
    whose target lies inside; [draw_tile] at an index outside
    [0, TILE_COUNT) returns and changes no pixel, whatever the grid. *)
Theorem bounds_safety (atlas : Image) :
  atlas_ok atlas →
  (∀ x y c,
     (¬ (0 ≤ x < ATLAS_WIDTH ∧ 0 ≤ y < ATLAS_HEIGHT) →
        set_pixel x y c atlas = Some atlas) ∧
     (0 ≤ x < ATLAS_WIDTH ∧ 0 ≤ y < ATLAS_HEIGHT →
        match Img.ink c with
        | Some c' =>
            ∃ atlas', set_pixel x y c atlas = Some atlas' ∧ atlas_ok atlas' ∧
              Img.getpixel x y atlas' = Some c' ∧ valid_color c' ∧
              ∀ px py, (px, py) ≠ (x, y) →
                Img.getpixel px py atlas' = Img.getpixel px py atlas
        | None => set_pixel x y c atlas = None
        end) ∧
     (valid_color c → Img.ink c = Some c)) ∧
  (∀ ox oy pixels,
     (blit ox oy pixels atlas = None ↔
        ∃ x y c, 0 ≤ x < TILE_SIZE ∧ 0 ≤ y < TILE_SIZE ∧
          grid_entry pixels x y = Some c ∧
          in_atlas (ox + x) (oy + y) = true ∧ Img.ink c = None) ∧
     (Forall (Forall (λ c, is_Some (Img.ink c))) pixels →
        is_Some (blit ox oy pixels atlas)) ∧
     (∀ atlas', blit ox oy pixels atlas = Some atlas' →
        atlas_ok atlas' ∧
        (∀ x y, 0 ≤ x < TILE_SIZE → 0 ≤ y < TILE_SIZE →
           Img.getpixel (ox + x) (oy + y) atlas' =
             match grid_entry pixels x y with
             | Some c => if in_atlas (ox + x) (oy + y) then Img.ink c
                         else Img.getpixel (ox + x) (oy + y) atlas
             | None => Img.getpixel (ox + x) (oy + y) atlas
             end) ∧
        (∀ px py, ¬ (0 ≤ px - ox < TILE_SIZE ∧ 0 ≤ py - oy < TILE_SIZE) →
           Img.getpixel px py atlas' = Img.getpixel px py atlas))) ∧
  (∀ tile_idx pixels, ¬ (0 ≤ tile_idx < TILE_COUNT) → ∃ atlas',
     draw_tile tile_idx pixels atlas = Some atlas' ∧ atlas_ok atlas' ∧
     ∀ px py, Img.getpixel px py atlas' = Img.getpixel px py atlas).
Proof.
  intros Hok. split_and!.
  - intros x y c. split_and!.
    + intros Hout. rewrite <- in_atlas_spec in Hout.
      apply not_true_is_false in Hout.
      unfold set_pixel. by rewrite Hout.
    + intros Hin. rewrite <- in_atlas_spec in Hin.
      destruct (set_pixel_spec atlas x y c Hok) as [Hraise Hret].
      destruct (Img.ink c) as [c'|] eqn:Hink.
      * destruct Hret as (atlas' & Hset & Hok' & Hget).
        { intros [_ Hn]. rewrite Hink in Hn. discriminate Hn. }
        exists atlas'. split_and!; [done..| | |].
        -- rewrite Hget. by rewrite decide_True.
        -- by eapply ink_Some_valid.
        -- intros px py Hne. rewrite Hget. rewrite decide_False; [done|].
           intros (_ & -> & ->). done.
      * apply Hraise. split; [exact Hin|exact Hink].
    + apply ink_valid.
  - intros ox oy pixels.
    destruct (blit_spec pixels ox oy atlas Hok) as [Hraise Hret].
    split_and!.
    + rewrite <- grid_overflows_spec. split; [|exact Hraise].
      intros Hnone. destruct (decide (grid_overflows pixels ox oy)) as [?|Hn];
        [done|].
      destruct (Hret Hn) as (atlas' & Hblit & _). congruence.
    + intros Hconv. destruct Hret as (atlas' & Hblit & _); [|by eexists].
      rewrite grid_overflows_spec.
      intros (x & y & c & Hx & Hy & Hc & _ & Hink).
      rewrite grid_entry_getpixel in Hc by lia.
      pose proof (getpixel_Forall _ pixels x y c Hconv Hc) as [c' Hc'].
      congruence.
    + intros atlas' Hblit.
      destruct (decide (grid_overflows pixels ox oy)) as [Hbad|Hn].
      { rewrite (Hraise Hbad) in Hblit. discriminate Hblit. }
      destruct (Hret Hn) as (atlas1 & Hblit1 & Hb).
      assert (atlas1 = atlas') as -> by congruence.
      split_and!; [apply Hb| |].
      * intros x y Hx Hy. by apply blitted_read.
      * intros px py Hout. by eapply blitted_frame.
  - intros tile_idx pixels Hidx.
    destruct (draw_tile_spec tile_idx pixels atlas Hok) as [_ Hret].
    assert (∀ px py,
      ¬ covers pixels (tile_origin tile_idx).1 (tile_origin tile_idx).2 px py)
      as Hnone.
    { intros px py (Hin & _ & Hy & _).
      apply in_atlas_spec in Hin. revert Hin Hy Hidx.
      unfold tile_origin, ATLAS_WIDTH, ATLAS_HEIGHT, TILE_COUNT, TILE_SIZE,
        TILES_PER_ROW. cbn [fst snd].
      change ((64 + 8 - 1) / 8 * 16) with 128.
      pose proof (Z.div_mod tile_idx 8 ltac:(lia)).
      pose proof (Z.mod_pos_bound tile_idx 8 ltac:(lia)). lia. }
    destruct Hret as (atlas' & Hdraw & Hok' & Hb).
    { rewrite grid_overflows_spec.
      intros (x & y & c & Hx & Hy & Hc & Hin & _).
      apply (Hnone ((tile_origin tile_idx).1 + x) ((tile_origin tile_idx).2 + y)).
      unfold covers. split; [exact Hin|].
      replace ((tile_origin tile_idx).1 + x - (tile_origin tile_idx).1)
        with x by lia.
      replace ((tile_origin tile_idx).2 + y - (tile_origin tile_idx).2)
        with y by lia.
      rewrite <- grid_entry_getpixel by lia. rewrite Hc.
      split_and!; [lia..|by eexists]. }
    exists atlas'. split_and!; [done..|]. intros px py.
    apply (proj2 (Hb px py)). apply Hnone.
Qed.

Lemma bounds_safety_witness :
  atlas_ok atlas0 ∧
  set_pixel 128 (-1) (2 ^ 70, 0, 0, 0) atlas0 = Some atlas0 ∧
  is_Some (blit 120 (-8) gen_stone atlas0).
Proof.
  assert (atlas_ok atlas0) as Hok.
  { split; [reflexivity|]. apply Forall_replicate. reflexivity. }
  destruct (bounds_safety atlas0 Hok) as (Hset & Hblit & _).
  split; [exact Hok|]. split.
  - apply (proj1 (Hset 128 (-1) (2 ^ 70, 0, 0, 0))).
    intros [[_ H] _]. vm_compute in H. discriminate H.
  - apply (proj1 (proj2 (Hblit 120 (-8) gen_stone))).
    eapply Forall_impl; [exact (generate_valid Stone gen_stone eq_refl)|].
    intros row Hrow. eapply Forall_impl; [exact Hrow|].
    intros c Hc. rewrite (ink_valid c Hc). by eexists.
Defined.

(** C8: the script runs to a final atlas, the indices of [0, 64) that its
    manifest never draws are 20-30, 35-36, 40-45 and 60-63, and each of the
    256 pixels of such a slot is still [(0, 0, 0, 0)] in the final atlas. *)
Theorem sparse_slots :
  ∃ final, main = Some final ∧
    (∀ j, 0 ≤ j < 64 →
       (j ∉ manifest.*1 ↔
        20 ≤ j ≤ 30 ∨ 35 ≤ j ≤ 36 ∨ 40 ≤ j ≤ 45 ∨ 60 ≤ j ≤ 63)) ∧
    (∀ j x y,
       20 ≤ j ≤ 30 ∨ 35 ≤ j ≤ 36 ∨ 40 ≤ j ≤ 45 ∨ 60 ≤ j ≤ 63 →
       0 ≤ x < 16 → 0 ≤ y < 16 →
       Img.getpixel ((tile_origin j).1 + x) ((tile_origin j).2 + y) final =
         Some (0, 0, 0, 0)).
Proof.
  destruct main_total as [final Hmain]. exists final. split; [done|].
  assert (∀ j, 0 ≤ j < 64 →
    (j ∉ manifest.*1 ↔
     20 ≤ j ≤ 30 ∨ 35 ≤ j ≤ 36 ∨ 40 ≤ j ≤ 45 ∨ 60 ≤ j ≤ 63)) as Hidx.
  { intros j Hj. rewrite manifest_indices.
    rewrite !not_elem_of_cons. split; [lia|].
    intros H. split_and!; try lia. apply not_elem_of_nil. }
  split; [exact Hidx|]. intros j x y Hj Hx Hy.
  apply (unlisted_slot manifest);
    [exact Hmain|unfold TILE_COUNT; lia|apply Hidx; lia|done..].
Qed.

Lemma sparse_slots_witness :
  ∃ final, main = Some final ∧
    (20 ≤ 25 ≤ 30 ∨ 35 ≤ 25 ≤ 36 ∨ 40 ≤ 25 ≤ 45 ∨ 60 ≤ 25 ≤ 63) ∧
    0 ≤ 7 < 16 ∧ 0 ≤ 9 < 16 ∧
    Img.getpixel ((tile_origin 25).1 + 7) ((tile_origin 25).2 + 9) final =
      Some (0, 0, 0, 0).
Proof.
  destruct sparse_slots as (final & Hmain & _ & Hblank).
  exists final. split; [exact Hmain|].
  split; [lia|]. split; [lia|]. split; [lia|].
  apply (Hblank 25 7 9); lia.
Defined.

(** C9: the atlas is 128 by 128 pixels, tile [i] of the 64 has its origin
    at [((i mod 8) * 16, (i / 8) * 16)], and tile 9 is at [(16, 16)]. *)
Theorem atlas_geometry :
  TILE_COUNT = 64 ∧ TILES_PER_ROW = 8 ∧ TILE_SIZE = 16 ∧
  ATLAS_WIDTH = 128 ∧ ATLAS_HEIGHT = 128 ∧
  (∀ i, 0 ≤ i < 64 → tile_origin i = ((i mod 8) * 16, (i / 8) * 16)) ∧
  tile_origin 9 = (16, 16).
Proof.
  split_and!; [reflexivity..| |reflexivity].
  intros i _. reflexivity.
Qed.

Lemma atlas_geometry_witness :
  0 ≤ 63 < 64 ∧ tile_origin 63 = ((63 mod 8) * 16, (63 / 8) * 16).
Proof.
  split; [lia|].
  apply (proj1 (proj2 (proj2 (proj2 (proj2 (proj2 atlas_geometry)))))). lia.
Defined.

(** C10: for every tile index and every list of lists, also one with fewer
    than 16 rows or with short rows, [draw_tile] raises no index error:
    under the guard [y < len(grid)] and [x < len(grid[y])] both index
    operations succeed, and the only way the call fails is the conversion
    of an entry that is about to be stored, which a grid of convertible
    colors never causes.  When it returns, it has written at each position
    of the tile the bytes of [grid[y][x]], which for a color with byte
    channels is [grid[y][x]] itself, where the guard holds and the target
    is in the atlas, and has left the pixel as it was otherwise; nothing
    outside the tile's 16 by 16 region changes. *)
Theorem draw_tile_ragged (tile_idx : Z) (pixels : PixelGrid) (atlas : Image) :
  atlas_ok atlas →
  (∀ x y, 0 ≤ x < TILE_SIZE → 0 ≤ y < TILE_SIZE → y < Py.len pixels →
     ∃ row, Py.index pixels y = Some row ∧
       (x < Py.len row → is_Some (Py.index row x))) ∧
  (draw_tile tile_idx pixels atlas = None ↔
     ∃ x y c, 0 ≤ x < TILE_SIZE ∧ 0 ≤ y < TILE_SIZE ∧
       grid_entry pixels x y = Some c ∧
       in_atlas ((tile_origin tile_idx).1 + x)
                ((tile_origin tile_idx).2 + y) = true ∧
       Img.ink c = None) ∧
  (Forall (Forall (λ c, is_Some (Img.ink c))) pixels →
     is_Some (draw_tile tile_idx pixels atlas)) ∧
  (∀ atlas', draw_tile tile_idx pixels atlas = Some atlas' →
    (∀ x y, 0 ≤ x < TILE_SIZE → 0 ≤ y < TILE_SIZE →
       Img.getpixel ((tile_origin tile_idx).1 + x)
                    ((tile_origin tile_idx).2 + y) atlas' =
         match grid_entry pixels x y with
         | Some c =>
             if in_atlas ((tile_origin tile_idx).1 + x) ((tile_origin tile_idx).2 + y)
             then Img.ink c
             else Img.getpixel ((tile_origin tile_idx).1 + x)
                               ((tile_origin tile_idx).2 + y) atlas
         | None => Img.getpixel ((tile_origin tile_idx).1 + x)
                                ((tile_origin tile_idx).2 + y) atlas
         end) ∧
    (∀ x y c, 0 ≤ x < TILE_SIZE → 0 ≤ y < TILE_SIZE →
       grid_entry pixels x y = Some c → valid_color c →
       in_atlas ((tile_origin tile_idx).1 + x)
                ((tile_origin tile_idx).2 + y) = true →
       Img.getpixel ((tile_origin tile_idx).1 + x)
                    ((tile_origin tile_idx).2 + y) atlas' = Some c) ∧
    (∀ px py,
       ¬ (0 ≤ px - (tile_origin tile_idx).1 < TILE_SIZE ∧
          0 ≤ py - (tile_origin tile_idx).2 < TILE_SIZE) →
       Img.getpixel px py atlas' = Img.getpixel px py atlas)).
Proof.
  intros Hok.
  destruct (draw_tile_spec tile_idx pixels atlas Hok) as [Hraise Hret].
  split_and!.
  - intros x y Hx Hy Hlen.
    destruct (index_in_range pixels y) as [row Hrow]; [lia|].
    exists row. split; [exact Hrow|]. intros Hlen'.
    apply index_in_range. lia.
  - rewrite <- grid_overflows_spec. split; [|exact Hraise].
    intros Hnone.
    destruct (decide (grid_overflows pixels (tile_origin tile_idx).1
                        (tile_origin tile_idx).2)) as [?|Hn]; [done|].
    destruct (Hret Hn) as (atlas' & Hdraw & _). congruence.
  - intros Hconv. destruct Hret as (atlas' & Hdraw & _); [|by eexists].
    rewrite grid_overflows_spec.
    intros (x & y & c & Hx & Hy & Hc & _ & Hink).
    rewrite grid_entry_getpixel in Hc by lia.
    pose proof (getpixel_Forall _ pixels x y c Hconv Hc) as [c' Hc'].
    congruence.
  - intros atlas' Hdraw.
    destruct (decide (grid_overflows pixels (tile_origin tile_idx).1
                        (tile_origin tile_idx).2)) as [Hbad|Hn].
    { rewrite (Hraise Hbad) in Hdraw. discriminate Hdraw. }
    destruct (Hret Hn) as (atlas1 & Hdraw1 & Hb).
    assert (atlas1 = atlas') as -> by congruence.
    split_and!.
    + intros x y Hx Hy. by apply blitted_read.
    + intros x y c Hx Hy Hc Hvalid Hin.
      rewrite (blitted_read pixels _ _ atlas atlas' x y Hb Hx Hy).
      rewrite Hc, Hin. by apply ink_valid.
    + intros px py Hout. by eapply blitted_frame.
Qed.

Lemma draw_tile_ragged_witness :
  atlas_ok atlas0 ∧
  is_Some (draw_tile 3 [[(1, 2, 3, 4)]; []; [(5, 6, 7, 8); (9, 9, 9, 9)]] atlas0).
Proof.
  assert (atlas_ok atlas0) as Hok.
  { split; [reflexivity|]. apply Forall_replicate. reflexivity. }
  split; [exact Hok|].
  apply (proj1 (proj2 (proj2
    (draw_tile_ragged 3 [[(1, 2, 3, 4)]; []; [(5, 6, 7, 8); (9, 9, 9, 9)]]
       atlas0 Hok)))).
  repeat constructor; by eexists.
Defined.

(** * Further properties *)

(** ** The tile grid and single writes *)

Lemma in_tile_unique (i j px py : Z) : in_tile i px py → in_tile j px py → i = j.
Proof.
  intros Hi Hj. 
  apply (tiles_disjoint i j (px - (tile_origin j).1) (py - (tile_origin j).2)).
  - apply Hj.
  - apply Hj.
  - replace ((tile_origin j).1 + (px - (tile_origin j).1)) with px by lia.
    replace ((tile_origin j).2 + (py - (tile_origin j).2)) with py by lia. done.
Qed.

(** Images of the atlas size with the same pixels are the same buffer. *)
Lemma image_ext (a b : Image) :
  atlas_ok a → atlas_ok b →
  (∀ px py, Img.getpixel px py a = Img.getpixel px py b) → a = b.
Proof.
  intros [La Ra] [Lb Rb] H. apply list_eq. intros i.
  destruct (decide (i < length a)%nat) as [Hi|Hi].
  - destruct (lookup_lt_is_Some_2 a i Hi) as [ra Hra].
    destruct (lookup_lt_is_Some_2 b i ltac:(lia)) as [rb Hrb].
    rewrite Hra, Hrb. f_equal. apply list_eq. intros j.
    specialize (H (Z.of_nat j) (Z.of_nat i)). unfold Img.getpixel in H.
    rewrite (proj2 (Z.leb_le 0 _)), (proj2 (Z.leb_le 0 _)) in H by lia.
    cbn [andb] in H. rewrite !Nat2Z.id, Hra, Hrb in H. exact H.
  - rewrite (proj2 (lookup_ge_None a i)), (proj2 (lookup_ge_None b i)) by lia.
    done.
Qed.

(** An atlas-sized buffer holds a pixel exactly at the atlas coordinates. *)
Lemma atlas_ok_get (atlas : Image) (px py : Z) :
  atlas_ok atlas → is_Some (Img.getpixel px py atlas) ↔ in_atlas px py = true.
Proof.
  intros [Hlen Hrows]. rewrite in_atlas_spec. unfold Img.getpixel.
  destruct (0 <=? px) eqn:Hx; cbn [andb];
    [apply Z.leb_le in Hx|apply Z.leb_gt in Hx; split; [by intros [? ?]|lia]].
  destruct (0 <=? py) eqn:Hy; cbn [andb];
    [apply Z.leb_le in Hy|apply Z.leb_gt in Hy; split; [by intros [? ?]|lia]].
  pose proof ATLAS_WIDTH_nonneg as Hw.
  destruct (atlas !! Z.to_nat py) as [row|] eqn:Hrow; cbn [mbind option_bind].
  - pose proof (lookup_lt_Some _ _ _ Hrow) as Hlt.
    rewrite Forall_forall in Hrows.
    pose proof (Hrows row (list_elem_of_lookup_2 _ _ _ Hrow)) as Hr.
    rewrite lookup_lt_is_Some, Hr. lia.
  - apply lookup_ge_None in Hrow. split; [by intros [? ?]|]. lia.
Qed.

(** X1: the 64 tile regions partition the atlas: a pixel of the atlas lies in
    the region of the index [(py / 16) * 8 + px / 16], which is in [0, 64),
    and in the region of no other integer index. *)
Theorem tile_regions_partition (px py : Z) :
  0 ≤ px < ATLAS_WIDTH → 0 ≤ py < ATLAS_HEIGHT →
  0 ≤ py / 16 * 8 + px / 16 < TILE_COUNT ∧
  in_tile (py / 16 * 8 + px / 16) px py ∧
  ∀ i, in_tile i px py → i = py / 16 * 8 + px / 16.
Proof.
  intros Hx Hy.
  assert (0 ≤ py / 16 * 8 + px / 16 < TILE_COUNT ∧
          in_tile (py / 16 * 8 + px / 16) px py) as [Hj Htile].
  { unfold in_tile, tile_origin, ATLAS_WIDTH, ATLAS_HEIGHT, TILE_COUNT,
      TILE_SIZE, TILES_PER_ROW in *. cbn [fst snd].
    change ((64 + 8 - 1) / 8 * 16) with 128 in Hy.
    assert ((py / 16 * 8 + px / 16) mod 8 = px / 16) as ->.
    { symmetry. apply (Z.mod_unique _ _ (py / 16)); [left|]; 
        try (pose proof (Z.div_mod px 16 ltac:(lia));
             pose proof (Z.mod_pos_bound px 16 ltac:(lia))); lia. }
    assert ((py / 16 * 8 + px / 16) / 8 = py / 16) as ->.
    { symmetry. apply (Z.div_unique _ _ _ (px / 16)); [left|];
        try (pose proof (Z.div_mod px 16 ltac:(lia));
             pose proof (Z.mod_pos_bound px 16 ltac:(lia))); lia. }
    pose proof (Z.div_mod px 16 ltac:(lia)).
    pose proof (Z.mod_pos_bound px 16 ltac:(lia)).
    pose proof (Z.div_mod py 16 ltac:(lia)).
    pose proof (Z.mod_pos_bound py 16 ltac:(lia)). lia. }
  split; [exact Hj|]. split; [exact Htile|].
  intros i Hi. by eapply in_tile_unique.
Qed.

Lemma tile_regions_partition_witness :
  0 ≤ 17 < ATLAS_WIDTH ∧ 0 ≤ 40 < ATLAS_HEIGHT ∧
  in_tile (40 / 16 * 8 + 17 / 16) 17 40.
Proof.
  assert (0 ≤ 17 < ATLAS_WIDTH) as Hx by (by vm_compute).
  assert (0 ≤ 40 < ATLAS_HEIGHT) as Hy by (by vm_compute).
  split; [exact Hx|]. split; [exact Hy|].
  exact (proj1 (proj2 (tile_regions_partition 17 40 Hx Hy))).
Defined.

(** X2: two writes with [set_pixel]: at the same coordinate, when the
    first write does not raise, the later one stands alone; at different
    coordinates their order does not matter, also when one of them
    raises. *)
Theorem set_pixel_compose (atlas : Image) (x y x' y' : Z) (c c' : Color) :
  atlas_ok atlas →
  (is_Some (set_pixel x y c atlas) →
   (set_pixel x y c atlas ≫= set_pixel x y c') = set_pixel x y c' atlas) ∧
  ((x, y) ≠ (x', y') →
   (set_pixel x y c atlas ≫= set_pixel x' y' c') =
   (set_pixel x' y' c' atlas ≫= set_pixel x y c)).
Proof.
  intros Hok.
  destruct (set_pixel_spec atlas x y c Hok) as [N1 S1].
  destruct (set_pixel_spec atlas x' y' c' Hok) as [N2 S2].
  split.
  - intros [a1 E1].
    destruct (decide (overflows x y c)) as [Hbad|Hgood].
    { rewrite (N1 Hbad) in E1. discriminate E1. }
    destruct (S1 Hgood) as (a1' & E1' & Hok1 & H1).
    assert (a1' = a1) as -> by congruence. clear E1'.
    rewrite E1. cbn [mbind option_bind].
    destruct (set_pixel_spec a1 x y c' Hok1) as [N3 S3].
    destruct (set_pixel_spec atlas x y c' Hok) as [N4 S4].
    destruct (decide (overflows x y c')) as [Hbad'|Hgood'].
    { by rewrite (N3 Hbad'), (N4 Hbad'). }
    destruct (S3 Hgood') as (a3 & -> & Hok3 & H3).
    destruct (S4 Hgood') as (a4 & -> & Hok4 & H4).
    f_equal. apply image_ext; [done..|]. intros px py.
    rewrite H3, H4, H1.
    destruct (decide (in_atlas x y = true ∧ px = x ∧ py = y)); reflexivity.
  - intros Hne.
    destruct (decide (overflows x y c)) as [Hbad|Hgood];
      destruct (decide (overflows x' y' c')) as [Hbad'|Hgood'].
    + by rewrite (N1 Hbad), (N2 Hbad').
    + rewrite (N1 Hbad). destruct (S2 Hgood') as (b1 & -> & Hokb & _).
      cbn [mbind option_bind].
      by rewrite (proj1 (set_pixel_spec b1 x y c Hokb) Hbad).
    + rewrite (N2 Hbad'). destruct (S1 Hgood) as (a1 & -> & Hok1 & _).
      cbn [mbind option_bind].
      by rewrite (proj1 (set_pixel_spec a1 x' y' c' Hok1) Hbad').
    + destruct (S1 Hgood) as (a1 & -> & Hok1 & H1).
      destruct (S2 Hgood') as (b1 & -> & Hokb & G1).
      cbn [mbind option_bind].
      destruct (proj2 (set_pixel_spec a1 x' y' c' Hok1) Hgood')
        as (a2 & -> & Hok2 & H2).
      destruct (proj2 (set_pixel_spec b1 x y c Hokb) Hgood)
        as (b2 & -> & Hokb2 & G2).
      f_equal. apply image_ext; [done..|]. intros px py.
      rewrite H2, G2, H1, G1.
      destruct (decide (in_atlas x y = true ∧ px = x ∧ py = y))
        as [(_ & -> & ->)|_];
        destruct (decide (in_atlas x' y' = true ∧ _ = x' ∧ _ = y'))
          as [(_ & <- & <-)|_];
        try reflexivity.
      exfalso. apply Hne. reflexivity.
Qed.

Lemma set_pixel_compose_witness :
  atlas_ok atlas0 ∧ is_Some (set_pixel 3 4 (1, 2, 3, 4) atlas0) ∧
  (set_pixel 3 4 (1, 2, 3, 4) atlas0 ≫= set_pixel 3 4 (5, 6, 7, 8)) =
    set_pixel 3 4 (5, 6, 7, 8) atlas0.
Proof.
  assert (is_Some (set_pixel 3 4 (1, 2, 3, 4) atlas0)) as Hfirst.
  { destruct (proj2 (set_pixel_spec atlas0 3 4 (1, 2, 3, 4) atlas0_ok))
      as (a & Ha & _); [|by eexists].
    intros [_ Hink]. vm_compute in Hink. discriminate Hink. }
  split; [exact atlas0_ok|]. split; [exact Hfirst|].
  exact (proj1 (set_pixel_compose atlas0 3 4 0 0 (1, 2, 3, 4) (5, 6, 7, 8)
                  atlas0_ok) Hfirst).
Defined.

(** ** Draws as pixel transformers *)

Lemma blitted_drawn (pixels : PixelGrid) (ox oy : Z) (atlas atlas' : Image)
    (px py : Z) :
  blitted pixels ox oy atlas (covers pixels ox oy) atlas' →
  Img.getpixel px py atlas' =
    drawn pixels ox oy (Img.getpixel px py atlas) px py.
Proof.
  intros [_ H]. destruct (H px py) as [Hin Hout]. unfold drawn, covers in *.
  destruct (in_atlas px py); cbn [andb]; [|apply Hout; intros (? & _); done].
  destruct (0 <=? px - ox) eqn:H1; cbn [andb];
    [apply Z.leb_le in H1|apply Z.leb_gt in H1; apply Hout; intros (_ & ? & ? & _); lia].
  destruct (px - ox <? TILE_SIZE) eqn:H2; cbn [andb];
    [apply Z.ltb_lt in H2|apply Z.ltb_ge in H2; apply Hout; intros (_ & ? & ? & _); lia].
  destruct (0 <=? py - oy) eqn:H3; cbn [andb];
    [apply Z.leb_le in H3|apply Z.leb_gt in H3; apply Hout; intros (_ & ? & ? & _); lia].
  destruct (py - oy <? TILE_SIZE) eqn:H4; cbn [andb];
    [apply Z.ltb_lt in H4|apply Z.ltb_ge in H4; apply Hout; intros (_ & ? & ? & _); lia].
  destruct (Img.getpixel (px - ox) (py - oy) pixels) as [c|] eqn:Hc.
  - rewrite Hin, ?Hc; [reflexivity|].
    split_and!; first [done|lia|by eexists].
  - apply Hout. intros (_ & _ & _ & [? ?]). done.
Qed.

(** [draw_tile] as a pixel transformer, when it returns. *)
Lemma draw_tile_drawn (tile_idx : Z) (pixels : PixelGrid) (atlas : Image) :
  atlas_ok atlas →
  (grid_overflows pixels (tile_origin tile_idx).1 (tile_origin tile_idx).2 →
     draw_tile tile_idx pixels atlas = None) ∧
  (¬ grid_overflows pixels (tile_origin tile_idx).1 (tile_origin tile_idx).2 →
   ∃ atlas', draw_tile tile_idx pixels atlas = Some atlas' ∧ atlas_ok atlas' ∧
     ∀ px py, Img.getpixel px py atlas' =
       drawn pixels (tile_origin tile_idx).1 (tile_origin tile_idx).2
         (Img.getpixel px py atlas) px py).
Proof.
  intros Hok.
  destruct (draw_tile_spec tile_idx pixels atlas Hok) as [Hraise Hret].
  split; [exact Hraise|]. intros Hn.
  destruct (Hret Hn) as (atlas' & Hd & Hb).
  exists atlas'. split_and!; [done|apply Hb|].
  intros px py. by apply blitted_drawn.
Qed.

Lemma drawn_in_tile (pixels : PixelGrid) (tile_idx : Z) (old : option Color)
    (px py : Z) :
  ¬ in_tile tile_idx px py →
  drawn pixels (tile_origin tile_idx).1 (tile_origin tile_idx).2 old px py = old.
Proof.
  intros Hout. unfold drawn, in_tile in *.
  destruct (in_atlas px py); cbn [andb]; [|done].
  destruct (0 <=? _) eqn:H1; cbn [andb]; [apply Z.leb_le in H1|done].
  destruct (_ <? _) eqn:H2; cbn [andb]; [apply Z.ltb_lt in H2|done].
  destruct (0 <=? _) eqn:H3; cbn [andb]; [apply Z.leb_le in H3|done].
  destruct (_ <? _) eqn:H4; cbn [andb]; [apply Z.ltb_lt in H4|done].
  exfalso. apply Hout. lia.
Qed.

(** X3: redrawing a tile: when the first draw returns, a second grid that
    has an entry wherever the first has one replaces it, so the two draws
    in sequence are the second draw alone; in particular drawing the same
    grid twice is drawing it once. *)
Theorem draw_tile_redraw (tile_idx : Z) (first second : PixelGrid)
    (atlas : Image) :
  atlas_ok atlas →
  is_Some (draw_tile tile_idx first atlas) →
  (∀ x y, is_Some (Img.getpixel x y first) → is_Some (Img.getpixel x y second)) →
  (draw_tile tile_idx first atlas ≫= draw_tile tile_idx second) =
    draw_tile tile_idx second atlas.
Proof.
  intros Hok [a1 E1] Hsub.
  destruct (draw_tile_drawn tile_idx first atlas Hok) as [N1 S1].
  destruct (decide (grid_overflows first (tile_origin tile_idx).1
                      (tile_origin tile_idx).2)) as [Hbad|Hgood].
  { rewrite (N1 Hbad) in E1. discriminate E1. }
  destruct (S1 Hgood) as (a1' & E1' & Hok1 & H1).
  assert (a1' = a1) as -> by congruence. clear E1'.
  rewrite E1. cbn [mbind option_bind].
  destruct (draw_tile_drawn tile_idx second a1 Hok1) as [N2 S2].
  destruct (draw_tile_drawn tile_idx second atlas Hok) as [N3 S3].
  destruct (decide (grid_overflows second (tile_origin tile_idx).1
                      (tile_origin tile_idx).2)) as [Hbad'|Hgood'].
  { by rewrite (N2 Hbad'), (N3 Hbad'). }
  destruct (S2 Hgood') as (a2 & -> & Hok2 & H2).
  destruct (S3 Hgood') as (a3 & -> & Hok3 & H3).
  f_equal. apply image_ext; [done..|]. intros px py.
  rewrite H2, H3, H1. unfold drawn.
  destruct (in_atlas px py && _ && _ && _ && _); [|done].
  destruct (Img.getpixel _ _ second) as [c|] eqn:Hc; [done|].
  destruct (Img.getpixel _ _ first) as [c'|] eqn:Hc'; [|done].
  destruct (Hsub _ _ ltac:(by eexists)) as [? ?]. congruence.
Qed.

Lemma draw_tile_redraw_witness :
  atlas_ok atlas0 ∧ is_Some (draw_tile 3 [[(1, 2, 3, 4)]] atlas0) ∧
  (draw_tile 3 [[(1, 2, 3, 4)]] atlas0 ≫= draw_tile 3 [[(9, 9, 9, 9); (5, 5, 5, 5)]]) =
    draw_tile 3 [[(9, 9, 9, 9); (5, 5, 5, 5)]] atlas0.
Proof.
  assert (atlas_ok atlas0) as Hok.
  { split; [reflexivity|]. apply Forall_replicate. reflexivity. }
  assert (is_Some (draw_tile 3 [[(1, 2, 3, 4)]] atlas0)) as Hfirst.
  { destruct (draw_tile_valid 3 [[(1, 2, 3, 4)]] atlas0 Hok) as (a & Ha & _);
      [|by eexists].
    repeat constructor; cbn; lia. }
  split; [exact Hok|]. split; [exact Hfirst|].
  apply (draw_tile_redraw 3 [[(1, 2, 3, 4)]] [[(9, 9, 9, 9); (5, 5, 5, 5)]] atlas0
           Hok Hfirst).
  intros x y [c Hc]. unfold Img.getpixel in *.
  destruct ((0 <=? x) && (0 <=? y)) eqn:Hxy; [|done].
  apply andb_true_iff in Hxy as [Hx Hy]. apply Z.leb_le in Hx, Hy.
  destruct (Z.to_nat y) as [|ny]; [|done]. cbn in *.
  destruct (Z.to_nat x) as [|nx]; [by eexists|done].
Defined.

(** X4: draws at distinct indices commute. *)
Theorem draw_tile_commute (i j : Z) (p q : PixelGrid) (atlas : Image) :
  atlas_ok atlas → i ≠ j →
  (draw_tile i p atlas ≫= draw_tile j q) =
    (draw_tile j q atlas ≫= draw_tile i p).
Proof.
  intros Hok Hij.
  destruct (draw_tile_drawn i p atlas Hok) as [Np Sp].
  destruct (draw_tile_drawn j q atlas Hok) as [Nq Sq].
  destruct (decide (grid_overflows p (tile_origin i).1 (tile_origin i).2))
    as [Hp|Hp];
    destruct (decide (grid_overflows q (tile_origin j).1 (tile_origin j).2))
      as [Hq|Hq].
  - by rewrite (Np Hp), (Nq Hq).
  - rewrite (Np Hp). destruct (Sq Hq) as (b1 & -> & Hokb & _).
    cbn [mbind option_bind].
    by rewrite (proj1 (draw_tile_drawn i p b1 Hokb) Hp).
  - rewrite (Nq Hq). destruct (Sp Hp) as (a1 & -> & Hok1 & _).
    cbn [mbind option_bind].
    by rewrite (proj1 (draw_tile_drawn j q a1 Hok1) Hq).
  - destruct (Sp Hp) as (a1 & -> & Hok1 & H1).
    destruct (Sq Hq) as (b1 & -> & Hokb & Hb1).
    cbn [mbind option_bind].
    destruct (proj2 (draw_tile_drawn j q a1 Hok1) Hq) as (a2 & -> & Hok2 & H2).
    destruct (proj2 (draw_tile_drawn i p b1 Hokb) Hp) as (b2 & -> & Hokb2 & Hb2).
    f_equal. apply image_ext; [done..|]. intros px py.
    rewrite H2, Hb2, H1, Hb1.
    destruct (decide (in_tile i px py)) as [Hi|Hi].
    + assert (¬ in_tile j px py) as Hj
        by (intros Hj; apply Hij; by eapply in_tile_unique).
      by rewrite !(drawn_in_tile q j) by done.
    + by rewrite !(drawn_in_tile p i) by done.
Qed.

Lemma draw_tile_commute_witness :
  atlas_ok atlas0 ∧ 3 ≠ 12 ∧
  (draw_tile 3 [[(1, 2, 3, 4)]] atlas0 ≫= draw_tile 12 [[(9, 9, 9, 9)]]) =
    (draw_tile 12 [[(9, 9, 9, 9)]] atlas0 ≫= draw_tile 3 [[(1, 2, 3, 4)]]).
Proof.
  assert (atlas_ok atlas0) as Hok.
  { split; [reflexivity|]. apply Forall_replicate. reflexivity. }
  split; [exact Hok|]. split; [lia|].
  apply (draw_tile_commute 3 12 _ _ atlas0 Hok). lia.
Defined.

(** ** The primitives *)

(** X5: [clamp] projects onto the interval: with ordered bounds the result is
    in the interval, a value in the interval is returned as it is, and the
    result lies between the value and any point of the interval, so no point
    of the interval is nearer; with the bounds the wrong way round the result
    is [min_v], whatever the value. *)
Theorem clamp_projection (v min_v max_v : Z) :
  (min_v ≤ max_v →
     min_v ≤ clamp v min_v max_v ≤ max_v ∧
     (min_v ≤ v ≤ max_v → clamp v min_v max_v = v) ∧
     clamp (clamp v min_v max_v) min_v max_v = clamp v min_v max_v ∧
     (∀ w, min_v ≤ w ≤ max_v →
        Z.min v w ≤ clamp v min_v max_v ≤ Z.max v w) ∧
     (∀ v', v ≤ v' → clamp v min_v max_v ≤ clamp v' min_v max_v)) ∧
  (max_v < min_v → clamp v min_v max_v = min_v).
Proof. unfold clamp. split_and!; intros; split_and?; intros; lia. Qed.

Lemma clamp_projection_witness : 0 ≤ 255 ∧ clamp 300 0 255 = 255.
Proof.
  split; [lia|].
  pose proof (proj1 (clamp_projection 300 0 255) ltac:(lia))
    as (Hrange & _ & _ & Hnear & _).
  specialize (Hnear 255 ltac:(lia)). lia.
Defined.

(** The bits below [a] of [n ^ (n >> b)] are those of the bits below
    [a + b] of [n]. *)
Lemma lxor_shiftr_mod (n n' a b : Z) :
  0 ≤ a → 0 ≤ b → n mod 2 ^ (a + b) = n' mod 2 ^ (a + b) →
  Z.lxor n (Z.shiftr n b) mod 2 ^ a = Z.lxor n' (Z.shiftr n' b) mod 2 ^ a.
Proof.
  intros Ha Hb Hn.
  assert (∀ i, 0 ≤ i < a + b → Z.testbit n i = Z.testbit n' i) as Hbits.
  { intros i Hi.
    rewrite <- (Z.mod_pow2_bits_low n (a + b) i) by lia.
    rewrite <- (Z.mod_pow2_bits_low n' (a + b) i) by lia.
    by rewrite Hn. }
  apply Z.bits_inj'. intros i Hi.
  destruct (Z_lt_le_dec i a) as [Hlt|Hge].
  - rewrite !Z.mod_pow2_bits_low by lia.
    rewrite !Z.lxor_spec, !Z.shiftr_spec by lia.
    by rewrite !Hbits by lia.
  - by rewrite !Z.mod_pow2_bits_high by lia.
Qed.

(** [noise] reads its arguments through the low 37 bits of their linear
    combination. *)
Lemma noise_congr (x y seed x' y' seed' : Z) :
  (x * 374761393 + y * 668265263 + seed * 1597463007) mod 2 ^ 37 =
  (x' * 374761393 + y' * 668265263 + seed' * 1597463007) mod 2 ^ 37 →
  noise x y seed = noise x' y' seed'.
Proof.
  intros Hn. unfold noise. cbv zeta.
  change 255 with (Z.ones 8). rewrite !Z.land_ones by lia.
  apply (lxor_shiftr_mod _ _ 8 16); [lia..|]. change (8 + 16) with 24.
  rewrite <- Z.mul_mod_idemp_l by lia. symmetry.
  rewrite <- Z.mul_mod_idemp_l by lia. symmetry.
  f_equal. f_equal.
  apply (lxor_shiftr_mod _ _ 24 13); [lia..|]. exact Hn.
Qed.

(** X6: [noise] is periodic: adding a multiple of [2^37] to any argument
    changes nothing, so the arguments count only modulo [2^37], and the
    unbounded integers of Python are not needed to compute it. *)
Theorem noise_period (x y seed : Z) :
  (∀ i j k, noise (x + 2 ^ 37 * i) (y + 2 ^ 37 * j) (seed + 2 ^ 37 * k) =
            noise x y seed) ∧
  noise (x mod 2 ^ 37) (y mod 2 ^ 37) (seed mod 2 ^ 37) = noise x y seed.
Proof.
  assert (∀ i j k, noise (x + 2 ^ 37 * i) (y + 2 ^ 37 * j) (seed + 2 ^ 37 * k) =
            noise x y seed) as Hper.
  { intros i j k. apply noise_congr.
    replace ((x + 2 ^ 37 * i) * 374761393 + (y + 2 ^ 37 * j) * 668265263 +
             (seed + 2 ^ 37 * k) * 1597463007)
      with (x * 374761393 + y * 668265263 + seed * 1597463007 +
            (i * 374761393 + j * 668265263 + k * 1597463007) * 2 ^ 37)
      by ring.
    apply Z_mod_plus_full. }
  split; [exact Hper|].
  rewrite <- (Hper (- (x / 2 ^ 37)) (- (y / 2 ^ 37)) (- (seed / 2 ^ 37))).
  f_equal; rewrite Z.mod_eq by lia; ring.
Qed.

(** ** The shape of a generated grid *)

Lemma range_length (n : Z) : length (Py.range n) = Z.to_nat n.
Proof. apply length_seqZ. Qed.

Lemma pixel_rows_full (px : Z → Z → Color) : full_grid (pixel_rows px).
Proof.
  unfold full_grid, pixel_rows, Py.len. split.
  - by rewrite length_fmap, range_length.
  - intros row Hrow. apply list_elem_of_fmap in Hrow as (y & -> & _).
    by rewrite length_fmap, range_length.
Qed.

Lemma pixel_rowsM_full (px : Z → Z → option Color) (pixels : PixelGrid) :
  pixel_rowsM px = Some pixels → full_grid pixels.
Proof.
  unfold pixel_rowsM, full_grid, Py.len. intros Hrun. split.
  - apply length_mapM in Hrun. rewrite <- Hrun. by rewrite range_length.
  - intros row Hrow. apply mapM_Some_1 in Hrun.
    apply list_elem_of_lookup in Hrow as [i Hi].
    destruct (Forall2_lookup_r _ _ _ _ _ Hrun Hi) as (y & _ & Hy).
    apply length_mapM in Hy. rewrite <- Hy. by rewrite range_length.
Qed.

Lemma gen_air_full : full_grid gen_air.
Proof.
  unfold full_grid, gen_air, Py.len. split.
  - by rewrite length_fmap, range_length.
  - intros row Hrow. apply list_elem_of_fmap in Hrow as (y & -> & _).
    by rewrite length_replicate.
Qed.

Ltac plain_grid_full :=
  lazymatch goal with
  | Hgen : Some ?g = Some _ |- _ =>
      injection Hgen as <-;
      lazymatch g with
      | ?f _ _ _ _ => unfold f
      | _ => unfold g
      end;
      apply pixel_rows_full
  end.

Lemma generate_full (g : Gen) (pixels : PixelGrid) :
  generate g = Some pixels → full_grid pixels.
Proof.
  destruct g; cbn [generate]; intros Hgen.
  - injection Hgen as <-. exact gen_air_full.
  - plain_grid_full.
  - plain_grid_full.
  - plain_grid_full.
  - plain_grid_full.
  - by eapply pixel_rowsM_full.
  - plain_grid_full.
  - plain_grid_full.
  - by eapply pixel_rowsM_full.
  - plain_grid_full.
  - plain_grid_full.
  - plain_grid_full.
  - by eapply pixel_rowsM_full.
  - plain_grid_full.
  - plain_grid_full.
  - plain_grid_full.
  - plain_grid_full.
  - plain_grid_full.
  - plain_grid_full.
  - by eapply pixel_rowsM_full.
  - apply gen_wheat_stage_eq in Hgen as (h & _ & ->). apply pixel_rows_full.
  - plain_grid_full.
  - plain_grid_full.
  - plain_grid_full.
Qed.

Lemma full_grid_get (pixels : PixelGrid) (x y : Z) :
  full_grid pixels → 0 ≤ x < TILE_SIZE → 0 ≤ y < TILE_SIZE →
  ∃ c, grid_get pixels x y = Some c ∧ Img.getpixel x y pixels = Some c.
Proof.
  intros [Hlen Hrows] Hx Hy. unfold grid_get, Img.getpixel, Py.len in *.
  rewrite (proj2 (Z.leb_le 0 x)), (proj2 (Z.leb_le 0 y)) by lia. cbn [andb].
  rewrite !index_nonneg by lia.
  destruct (lookup_lt_is_Some_2 pixels (Z.to_nat y)) as [row Hrow]; [lia|].
  rewrite Hrow. cbn [mbind option_bind]. rewrite index_nonneg by lia.
  specialize (Hrows row (list_elem_of_lookup_2 _ _ _ Hrow)).
  destruct (lookup_lt_is_Some_2 row (Z.to_nat x)) as [c Hc]; [lia|].
  exists c. by rewrite Hc.
Qed.

(** ** Alpha of the generated pixels *)

Ltac alpha_px :=
  px_cases; cbn [alpha_law alpha snd];
  first [ reflexivity | left; reflexivity | right; reflexivity
        | right; left; reflexivity | right; right; reflexivity ].

Ltac plain_grid_alpha :=
  lazymatch goal with
  | Hgen : Some ?g = Some _ |- _ =>
      injection Hgen as <-;
      lazymatch g with
      | ?f _ _ _ _ => unfold f
      | _ => unfold g
      end;
      apply pixel_rows_Forall; intros x y;
      lazymatch goal with
      | |- _ (?px _ _ _ _ x y) => unfold px
      | |- _ (?px x y) => unfold px
      end;
      alpha_px
  end.

Lemma stone_px_alpha x y : alpha (stone_px x y) = 255.
Proof. unfold stone_px. px_cases; reflexivity. Qed.

Lemma dirt_px_alpha x y : alpha (dirt_px x y) = 255.
Proof. unfold dirt_px. px_cases; reflexivity. Qed.

Lemma grass_top_px_alpha x y : alpha (grass_top_px x y) = 255.
Proof. unfold grass_top_px. px_cases; reflexivity. Qed.

Lemma farmland_px_alpha x y : alpha (farmland_px x y) = 255.
Proof.
  unfold farmland_px. pose proof (dirt_px_alpha x y) as Hd.
  destruct (dirt_px x y) as [[[r g] b] a].
  destruct (y mod 4 <? 2); exact Hd.
Qed.

Lemma log_end_px_alpha x y c : log_end_px x y = Some c → alpha c = 255.
Proof.
  unfold log_end_px. cbv beta iota zeta. intros H.
  repeat match type of H with
  | context [Py.int_of_float ?f] =>
      destruct (Py.int_of_float f); cbn [mbind option_bind] in H; [|done]
  end.
  injection H as <-. reflexivity.
Qed.

Lemma generate_alpha (g : Gen) (pixels : PixelGrid) :
  generate g = Some pixels → Forall (Forall (alpha_law g)) pixels.
Proof.
  destruct g; cbn [generate]; intros Hgen.
  - injection Hgen as <-. unfold gen_air.
    rewrite Forall_fmap. apply Forall_forall. intros y _.
    apply Forall_replicate. reflexivity.
  - plain_grid_alpha.
  - plain_grid_alpha.
  - plain_grid_alpha.
  - plain_grid_alpha.
  - rewrite gen_grass_side_eq in Hgen. injection Hgen as <-.
    apply pixel_rows_Forall. intros x y. unfold grass_side_px.
    destruct (y <? 3); [apply grass_top_px_alpha|apply dirt_px_alpha].
  - plain_grid_alpha.
  - plain_grid_alpha.
  - eapply pixel_rowsM_Forall; [|exact Hgen]. apply log_end_px_alpha.
  - plain_grid_alpha.
  - plain_grid_alpha.
  - plain_grid_alpha.
  - rewrite gen_ore_eq in Hgen. injection Hgen as <-.
    apply pixel_rows_Forall. intros x y. unfold ore_px.
    destruct (is_vein tile_idx x y); [reflexivity|apply stone_px_alpha].
  - plain_grid_alpha.
  - plain_grid_alpha.
  - plain_grid_alpha.
  - plain_grid_alpha.
  - plain_grid_alpha.
  - plain_grid_alpha.
  - rewrite gen_farmland_eq in Hgen. injection Hgen as <-.
    apply pixel_rows_Forall. intros x y. apply farmland_px_alpha.
  - apply gen_wheat_stage_eq in Hgen as (h & _ & ->).
    apply pixel_rows_Forall. intros x y. unfold wheat_px. alpha_px.
  - plain_grid_alpha.
  - plain_grid_alpha.
  - plain_grid_alpha.
Qed.

(** X8: every pixel a generator returns has the alpha of its material: 255 for
    the blocks, 160 or 220 for leaves, 140 for water, 60 or 220 for glass; an
    icon pixel is opaque or exactly [(0, 0, 0, 0)], a crop pixel is besides
    that a leaf of alpha 200; no pixel is transparent with a color left in it. *)
Theorem generated_alpha (g : Gen) (pixels : PixelGrid) (row : list Color)
    (c : Color) :
  generate g = Some pixels → row ∈ pixels → c ∈ row →
  alpha_law g c ∧ (alpha c = 0 → c = (0, 0, 0, 0)).
Proof.
  intros Hgen Hrow Hc. apply generate_alpha in Hgen.
  rewrite Forall_forall in Hgen. specialize (Hgen row Hrow).
  rewrite Forall_forall in Hgen. specialize (Hgen c Hc).
  split; [exact Hgen|]. intros H0. clear Hrow Hc.
  destruct g; cbn [alpha_law] in Hgen;
    repeat match goal with
    | H : _ ∨ _ |- _ => destruct H as [H|H]
    end;
    first [ exact Hgen | congruence ].
Qed.

Lemma generated_alpha_witness :
  generate Water = Some gen_water ∧
  ((λ x, water_px x 0) <$> Py.range TILE_SIZE) ∈ gen_water ∧
  water_px 0 0 ∈ ((λ x, water_px x 0) <$> Py.range TILE_SIZE) ∧
  alpha (water_px 0 0) = 140.
Proof.
  assert (((λ x, water_px x 0) <$> Py.range TILE_SIZE) ∈ gen_water) as Hrow.
  { unfold gen_water, pixel_rows.
    apply (list_elem_of_fmap_2 (λ y, (λ x, water_px x y) <$> Py.range TILE_SIZE)).
    apply range_elem. unfold TILE_SIZE. lia. }
  assert (water_px 0 0 ∈ ((λ x, water_px x 0) <$> Py.range TILE_SIZE)) as Hc.
  { apply (list_elem_of_fmap_2 (λ x, water_px x 0)).
    apply range_elem. unfold TILE_SIZE. lia. }
  split; [reflexivity|]. split; [exact Hrow|]. split; [exact Hc|].
  exact (proj1 (generated_alpha Water gen_water _ _ eq_refl Hrow Hc)).
Defined.

(** ** Where a generator raises *)

(** [l[i]] raises exactly outside [-len(l), len(l)). *)
Lemma index_None {A} (l : list A) (i : Z) :
  Py.index l i = None ↔ i < - Py.len l ∨ Py.len l ≤ i.
Proof.
  unfold Py.index, Py.len.
  destruct (0 <=? i) eqn:H0; [apply Z.leb_le in H0|apply Z.leb_gt in H0].
  - rewrite lookup_ge_None. lia.
  - destruct (- Z.of_nat (length l) <=? i) eqn:H1;
      [apply Z.leb_le in H1|apply Z.leb_gt in H1].
    + rewrite lookup_ge_None. lia.
    + split; [lia|done].
Qed.

Lemma index_negative {A} (l : list A) (i : Z) :
  - Py.len l ≤ i < 0 → Py.index l i = Py.index l (Py.len l + i).
Proof.
  intros [Hlo Hhi]. unfold Py.index.
  rewrite (proj2 (Z.leb_gt 0 i) Hhi), (proj2 (Z.leb_le _ _) Hlo).
  by rewrite (proj2 (Z.leb_le 0 (Py.len l + i))) by lia.
Qed.

(** X9: the only generator call that raises is [gen_wheat_stage] with a stage
    outside [-8, 7], where reading the height table fails; every other call,
    with any arguments, returns a grid. *)
Theorem generate_raises (g : Gen) :
  generate g = None ↔ ∃ stage, g = WheatStage stage ∧ (stage < -8 ∨ 7 < stage).
Proof.
  destruct g;
    try (split;
         [ intros Hnone;
           lazymatch type of Hnone with
           | generate ?g = None =>
               destruct (generate_total g eq_refl) as [p Hp];
               rewrite Hp in Hnone; discriminate Hnone
           end
         | intros (s & [=] & _) ]).
  cbn [generate]. unfold gen_wheat_stage.
  pose proof (index_None wheat_heights stage) as Hidx.
  change (Py.len wheat_heights) with 8 in Hidx.
  destruct (Py.index wheat_heights stage) as [h|]; cbn [mbind option_bind].
  - split; [discriminate|]. intros (s & [= <-] & Hs).
    assert (Some h = None) as Hn by (apply Hidx; lia). discriminate Hn.
  - split; [|reflexivity]. intros _. exists stage. split; [reflexivity|].
    destruct Hidx as [Hidx _]. specialize (Hidx eq_refl). lia.
Qed.

Lemma wheat_px_negative (stage height x y : Z) :
  stage < 0 → alpha (wheat_px stage height x y) = 255 →
  young_stalk (wheat_px stage height x y).
Proof.
  intros Hs. unfold wheat_px. cbv beta iota zeta.
  rewrite (proj2 (Z.leb_le stage 2)) by lia.
  rewrite (proj2 (Z.leb_gt 5 stage)) by lia.
  cbn [andb].
  pose proof (Z.mod_pos_bound (noise x y (stage + 490)) 12 ltac:(lia)).
  pose proof (Z.mod_pos_bound (Z.shiftr (noise x y (stage + 490)) 2) 12
                ltac:(lia)).
  pose proof (Z.mod_pos_bound (Z.shiftr (noise x y (stage + 490)) 4) 12
                ltac:(lia)).
  repeat case_match; cbn [alpha snd]; try discriminate; intros _;
    unfold young_stalk, clamp; cbn [fst snd]; lia.
Qed.

(** X10: a negative stage does not raise: Python reads the height table from
    its end, so for a stage in [-8, -1] the crop has the height of stage
    [stage + 8], while its colors are chosen by the negative number: every
    opaque pixel is a young stalk and there is no grain head. *)
Theorem wheat_stage_wraps (stage : Z) :
  -8 ≤ stage < 0 →
  ∃ pixels height,
    gen_wheat_stage stage = Some pixels ∧
    Py.index wheat_heights (stage + 8) = Some height ∧
    visible_height pixels = height ∧
    ∀ x y c, 0 ≤ x < 16 → 0 ≤ y < 16 → grid_get pixels x y = Some c →
      alpha c = 255 → young_stalk c.
Proof.
  intros Hs.
  destruct (index_in_range wheat_heights (stage + 8)) as [h Hh].
  { change (Py.len wheat_heights) with 8. lia. }
  assert (Py.index wheat_heights stage = Some h) as Hidx.
  { rewrite index_negative by (change (Py.len wheat_heights) with 8; lia).
    change (Py.len wheat_heights) with 8.
    by replace (8 + stage) with (stage + 8) by lia. }
  exists (pixel_rows (wheat_px stage h)), h. split_and!.
  - apply gen_wheat_stage_eq. by exists h.
  - exact Hh.
  - clear Hidx.
    assert (stage = -8 ∨ stage = -7 ∨ stage = -6 ∨ stage = -5 ∨
            stage = -4 ∨ stage = -3 ∨ stage = -2 ∨ stage = -1) as Hcases
      by lia.
    destruct_or!; subst stage; vm_compute in Hh; injection Hh as <-;
      vm_compute; reflexivity.
  - intros x y c Hx Hy Hc. rewrite pixel_rows_get in Hc by done.
    injection Hc as <-. apply wheat_px_negative. lia.
Qed.

Lemma wheat_stage_wraps_witness :
  -8 ≤ -1 < 0 ∧
  ∃ pixels, gen_wheat_stage (-1) = Some pixels ∧ visible_height pixels = 16.
Proof.
  split; [lia|].
  destruct (wheat_stage_wraps (-1) ltac:(lia)) as (pixels & h & Hg & Hh & Hv & _).
  exists pixels. split; [exact Hg|].
  vm_compute in Hh. injection Hh as <-. exact Hv.
Defined.

(** ** Colors and shapes of single tiles *)

(** The brightness the [stones] loop sets for a pixel inside a stone. *)
Lemma first_stone_range (x y v : Z) :
  first_stone x y stones = Some v → 118 ≤ v ≤ 247.
Proof.
  pose proof (Z.mod_pos_bound (noise x y 5) 25 ltac:(lia)).
  unfold stones. cbn [first_stone]. cbv zeta.
  repeat case_match; intros Hv; simplify_eq; lia.
Qed.

(** X11: cobblestone has two tones and nothing between them: every pixel is an
    opaque gray whose level is at most 19, the mortar, or at least 118, a
    stone. *)
Theorem cobblestone_two_tone (x y : Z) :
  0 ≤ x < 16 → 0 ≤ y < 16 →
  ∃ v, grid_get gen_cobblestone x y = Some (v, v, v, 255) ∧
       (0 ≤ v ≤ 19 ∨ 118 ≤ v ≤ 255).
Proof.
  intros Hx Hy. unfold gen_cobblestone. rewrite pixel_rows_get by done.
  unfold cobblestone_px.
  pose proof (first_stone_range x y) as Hrange.
  pose proof (Z.mod_pos_bound (noise x y 2) 15 ltac:(lia)).
  destruct (first_stone x y stones) as [v|].
  - specialize (Hrange v eq_refl). cbv beta iota zeta. cbn [negb andb].
    eexists. split; [reflexivity|]. right.
    case_match; unfold clamp; lia.
  - clear Hrange. cbv beta iota zeta. cbn [negb andb].
    eexists. split; [reflexivity|]. left.
    case_match; unfold clamp; lia.
Qed.

Lemma cobblestone_two_tone_witness :
  0 ≤ 0 < 16 ∧ 0 ≤ 0 < 16 ∧
  ∃ v, grid_get gen_cobblestone 0 0 = Some (v, v, v, 255).
Proof.
  split; [lia|]. split; [lia|].
  destruct (cobblestone_two_tone 0 0 ltac:(lia) ltac:(lia)) as (v & Hv & _).
  exists v. exact Hv.
Defined.

(** X12: a vein pixel of an ore tile is opaque and each of its channels is
    within 10 of the ore color. *)
Theorem ore_vein_color (tile_idx ore_r ore_g ore_b x y : Z) :
  0 ≤ x < 16 → 0 ≤ y < 16 → is_vein tile_idx x y = true →
  ∃ pixels c,
    gen_ore tile_idx ore_r ore_g ore_b = Some pixels ∧
    grid_get pixels x y = Some c ∧ tinted 10 ore_r ore_g ore_b c.
Proof.
  intros Hx Hy Hvein.
  exists (pixel_rows (ore_px tile_idx ore_r ore_g ore_b)),
    (ore_px tile_idx ore_r ore_g ore_b x y).
  split; [apply gen_ore_eq|]. split; [by apply pixel_rows_get|].
  unfold ore_px. rewrite Hvein. cbv beta iota zeta.
  pose proof (Z.mod_pos_bound (noise x y (tile_idx + 50)) 20 ltac:(lia)).
  pose proof (Z.mod_pos_bound (Z.shiftr (noise x y (tile_idx + 50)) 2) 20
                ltac:(lia)).
  pose proof (Z.mod_pos_bound (Z.shiftr (noise x y (tile_idx + 50)) 4) 20
                ltac:(lia)).
  unfold tinted, clamp. cbn [alpha fst snd]. split_and!; lia.
Qed.

Lemma ore_vein_color_witness :
  0 ≤ 0 < 16 ∧ 0 ≤ 1 < 16 ∧ is_vein 12 0 1 = true ∧
  ∃ pixels c, gen_ore 12 40 40 40 = Some pixels ∧
    grid_get pixels 0 1 = Some c ∧ alpha c = 255.
Proof.
  split; [lia|]. split; [lia|]. split; [vm_compute; reflexivity|].
  destruct (ore_vein_color 12 40 40 40 0 1 ltac:(lia) ltac:(lia) eq_refl)
    as (pixels & c & Hg & Hc & Ht).
  exists pixels, c. split; [exact Hg|]. split; [exact Hc|]. exact (proj1 Ht).
Defined.

(** X13: an icon of [gen_solid_item] is transparent exactly outside its shape;
    inside, a pixel is opaque and each channel is within 7 of the base color. *)
Theorem solid_item_shape (base_r base_g base_b : Z)
    (shape_mask : option (Z → Z → bool)) (x y : Z) :
  0 ≤ x < 16 → 0 ≤ y < 16 →
  ∃ c, grid_get (gen_solid_item base_r base_g base_b shape_mask) x y = Some c ∧
    (item_shape shape_mask x y = true → tinted 7 base_r base_g base_b c) ∧
    (item_shape shape_mask x y = false → c = (0, 0, 0, 0)).
Proof.
  intros Hx Hy. exists (solid_item_px base_r base_g base_b shape_mask x y).
  split; [by apply pixel_rows_get|].
  pose proof (Z.mod_pos_bound (noise x y 99) 15 ltac:(lia)).
  pose proof (Z.mod_pos_bound (Z.shiftr (noise x y 99) 2) 15 ltac:(lia)).
  pose proof (Z.mod_pos_bound (Z.shiftr (noise x y 99) 4) 15 ltac:(lia)).
  assert (solid_item_px base_r base_g base_b shape_mask x y =
          if item_shape shape_mask x y then
            (clamp8 (base_r + noise x y 99 mod 15 - 7),
             clamp8 (base_g + Z.shiftr (noise x y 99) 2 mod 15 - 7),
             clamp8 (base_b + Z.shiftr (noise x y 99) 4 mod 15 - 7), 255)
          else (0, 0, 0, 0)) as ->.
  { unfold solid_item_px, item_shape. destruct shape_mask; reflexivity. }
  generalize (item_shape shape_mask x y). intros [|].
  - split; [intros _|discriminate].
    unfold tinted, clamp. cbn [alpha fst snd]. split_and!; lia.
  - split; [discriminate|reflexivity].
Qed.

Lemma solid_item_shape_witness :
  0 ≤ 8 < 16 ∧ 0 ≤ 8 < 16 ∧
  ∃ c, grid_get (gen_solid_item 230 130 120 None) 8 8 = Some c ∧ alpha c = 255.
Proof.
  split; [lia|]. split; [lia|].
  destruct (solid_item_shape 230 130 120 None 8 8 ltac:(lia) ltac:(lia))
    as (c & Hc & Hin & _).
  exists c. split; [exact Hc|]. exact (proj1 (Hin eq_refl)).
Defined.

Lemma oval_border (x y : Z) :
  0 ≤ x < TILE_SIZE → 0 ≤ y < TILE_SIZE → on_border x y = true →
  default_oval x y = false.
Proof.
  intros Hx Hy Hb.
  pose proof (tile_forallb (λ x y, negb (on_border x y) || negb (default_oval x y))
                ltac:(vm_compute; reflexivity) x y Hx Hy) as H.
  cbv beta in H. rewrite Hb in H. cbn [negb orb] in H.
  by apply negb_true_iff in H.
Qed.

Lemma icons_border (x y : Z) :
  0 ≤ x < TILE_SIZE → 0 ≤ y < TILE_SIZE → on_border x y = true →
  alpha (hoe_icon_px x y) = 0 ∧ alpha (seeds_icon_px x y) = 0 ∧
  alpha (wheat_item_px x y) = 0.
Proof.
  intros Hx Hy Hb.
  pose proof (tile_forallb
    (λ x y, negb (on_border x y) ||
            ((alpha (hoe_icon_px x y) =? 0) &&
             (alpha (seeds_icon_px x y) =? 0) &&
             (alpha (wheat_item_px x y) =? 0)))
    ltac:(vm_compute; reflexivity) x y Hx Hy) as H.
  cbv beta in H. rewrite Hb in H. cbn [negb orb] in H.
  apply andb_true_iff in H as [H H3]. apply andb_true_iff in H as [H1 H2].
  apply Z.eqb_eq in H1, H2, H3. done.
Qed.

(** X14: every item icon keeps its outermost ring of pixels fully transparent:
    the oval of [gen_solid_item] with any base color, the hoe, the seeds and
    the wheat item. *)
Theorem icon_margin (g : Gen) (pixels : PixelGrid) (x y : Z) :
  is_icon g = true → generate g = Some pixels →
  0 ≤ x < 16 → 0 ≤ y < 16 → on_border x y = true →
  grid_get pixels x y = Some (0, 0, 0, 0).
Proof.
  intros Hicon Hgen Hx Hy Hb.
  pose proof (generate_full g pixels Hgen) as Hfull.
  destruct (full_grid_get pixels x y Hfull Hx Hy) as (c & Hc & Hc').
  rewrite Hc. f_equal.
  assert (alpha c = 0 → c = (0, 0, 0, 0)) as Hzero.
  { intros H0. pose proof (generate_alpha g pixels Hgen) as Hall.
    pose proof (getpixel_Forall _ pixels x y c Hall Hc') as Hlaw.
    destruct g; try discriminate Hicon; cbn [alpha_law] in Hlaw;
      destruct Hlaw as [Hlaw|Hlaw]; first [exact Hlaw|congruence]. }
  apply Hzero. pose proof (icons_border x y Hx Hy Hb) as (Hhoe & Hseeds & Hitem).
  destruct g; try discriminate Hicon; cbn [generate] in Hgen;
    injection Hgen as <-.
  - destruct shape_mask; [discriminate Hicon|].
    unfold gen_solid_item in Hc. rewrite pixel_rows_get in Hc by done.
    injection Hc as <-. unfold solid_item_px.
    by rewrite oval_border.
  - unfold gen_hoe_icon in Hc. rewrite pixel_rows_get in Hc by done.
    injection Hc as <-. exact Hhoe.
  - unfold gen_seeds_icon in Hc. rewrite pixel_rows_get in Hc by done.
    injection Hc as <-. exact Hseeds.
  - unfold gen_wheat_item in Hc. rewrite pixel_rows_get in Hc by done.
    injection Hc as <-. exact Hitem.
Qed.

Lemma icon_margin_witness :
  is_icon HoeIcon = true ∧ generate HoeIcon = Some gen_hoe_icon ∧
  0 ≤ 15 < 16 ∧ 0 ≤ 7 < 16 ∧ on_border 15 7 = true ∧
  grid_get gen_hoe_icon 15 7 = Some (0, 0, 0, 0).
Proof.
  split; [reflexivity|]. split; [reflexivity|]. split; [lia|]. split; [lia|].
  split; [reflexivity|].
  apply (icon_margin HoeIcon gen_hoe_icon 15 7 eq_refl eq_refl); [lia|lia|].
  reflexivity.
Defined.

(** The channels of a dirt pixel stay clear of both ends of the byte
    range. *)
Lemma dirt_px_bounds (x y : Z) :
  84 ≤ (dirt_px x y).1.1.1 ≤ 208 ∧
  48 ≤ (dirt_px x y).1.1.2 ≤ 142 ∧
  25 ≤ (dirt_px x y).1.2 ≤ 99.
Proof.
  pose proof (Z.mod_pos_bound (noise x y 3) 30 ltac:(lia)).
  pose proof (Z.mod_pos_bound (Z.shiftr (noise x y 3) 2) 25 ltac:(lia)).
  pose proof (Z.mod_pos_bound (Z.shiftr (noise x y 3) 4) 20 ltac:(lia)).
  unfold dirt_px. px_cases; simplify_eq; unfold clamp; cbn [fst snd]; lia.
Qed.

(** X15: farmland is dirt darkened by a fixed amount: each pixel is the dirt
    pixel at the same place minus [(25, 20, 15)], minus [(45, 35, 25)] in the
    two upper rows of every four; the clamps never act, and the alpha is that
    of the dirt, 255. *)
Theorem farmland_offset (x y : Z) :
  0 ≤ x < 16 → 0 ≤ y < 16 →
  ∃ pixels d f,
    gen_farmland = Some pixels ∧
    grid_get gen_dirt x y = Some d ∧ grid_get pixels x y = Some f ∧
    f.1.1.1 = d.1.1.1 - (furrow_offset y).1.1 ∧
    f.1.1.2 = d.1.1.2 - (furrow_offset y).1.2 ∧
    f.1.2 = d.1.2 - (furrow_offset y).2 ∧
    alpha f = alpha d ∧ alpha d = 255.
Proof.
  intros Hx Hy.
  exists (pixel_rows farmland_px), (dirt_px x y), (farmland_px x y).
  split; [apply gen_farmland_eq|].
  split; [by apply pixel_rows_get|]. split; [by apply pixel_rows_get|].
  pose proof (dirt_px_bounds x y) as Hb. pose proof (dirt_px_alpha x y) as Ha.
  unfold farmland_px, furrow_offset.
  destruct (dirt_px x y) as [[[r g] b] a]. cbn [alpha fst snd] in *.
  destruct (y mod 4 <? 2); cbn [alpha fst snd]; unfold clamp;
    split_and!; lia.
Qed.

Lemma farmland_offset_witness :
  0 ≤ 3 < 16 ∧ 0 ≤ 2 < 16 ∧
  ∃ pixels d f,
    gen_farmland = Some pixels ∧
    grid_get gen_dirt 3 2 = Some d ∧ grid_get pixels 3 2 = Some f ∧
    f.1.1.1 = d.1.1.1 - 25.
Proof.
  split; [lia|]. split; [lia|].
  destruct (farmland_offset 3 2 ltac:(lia) ltac:(lia))
    as (pixels & d & f & Hg & Hd & Hf & Hr & _).
  exists pixels, d, f. split; [exact Hg|]. split; [exact Hd|].
  split; [exact Hf|]. exact Hr.
Defined.

(** ** The run of the manifest *)

Lemma exec_draw_drawn (st : Z * Gen) (atlas atlas' : Image) :
  atlas_ok atlas → exec_draw st atlas = Some atlas' →
  atlas_ok atlas' ∧
  ∃ pixels, generate st.2 = Some pixels ∧
    ∀ px py, Img.getpixel px py atlas' =
      drawn pixels (tile_origin st.1).1 (tile_origin st.1).2
        (Img.getpixel px py atlas) px py.
Proof.
  intros Hok. unfold exec_draw.
  destruct (generate st.2) as [pixels|] eqn:Hgen;
    cbn [mbind option_bind]; [|done].
  destruct (proj2 (draw_tile_drawn st.1 pixels atlas Hok))
    as (a1 & -> & Hok1 & H1).
  { apply valid_no_overflow. by eapply generate_valid. }
  intros [= <-]. split; [done|]. by exists pixels.
Qed.

(** A statement of the manifest never raises in the draw: the grid of a
    generator holds colors with byte channels only. *)
Lemma exec_draw_generate (st : Z * Gen) (atlas : Image) (pixels : PixelGrid) :
  atlas_ok atlas → generate st.2 = Some pixels →
  ∃ atlas', exec_draw st atlas = Some atlas' ∧ atlas_ok atlas' ∧
    ∀ px py, Img.getpixel px py atlas' =
      drawn pixels (tile_origin st.1).1 (tile_origin st.1).2
        (Img.getpixel px py atlas) px py.
Proof.
  intros Hok Hgen. unfold exec_draw. rewrite Hgen. cbn [mbind option_bind].
  apply draw_tile_drawn; [done|].
  apply valid_no_overflow. by eapply generate_valid.
Qed.

Lemma exec_draw_commute (st1 st2 : Z * Gen) (atlas : Image) :
  atlas_ok atlas → st1.1 ≠ st2.1 →
  (exec_draw st1 atlas ≫= exec_draw st2) = (exec_draw st2 atlas ≫= exec_draw st1).
Proof.
  intros Hok Hne.
  destruct (generate st1.2) as [p|] eqn:Hp, (generate st2.2) as [q|] eqn:Hq.
  - destruct (exec_draw_generate st1 atlas p Hok Hp) as (a1 & -> & Hok1 & H1).
    destruct (exec_draw_generate st2 atlas q Hok Hq) as (b1 & -> & Hokb & Hb1).
    cbn [mbind option_bind].
    destruct (exec_draw_generate st2 a1 q Hok1 Hq) as (a2 & -> & Hok2 & H2).
    destruct (exec_draw_generate st1 b1 p Hokb Hp) as (b2 & -> & Hokb2 & Hb2).
    f_equal. apply image_ext; [done..|]. intros px py.
    rewrite H2, Hb2, H1, Hb1.
    destruct (decide (in_tile st1.1 px py)) as [Hi|Hi].
    + assert (¬ in_tile st2.1 px py) as Hj
        by (intros Hj; apply Hne; by eapply in_tile_unique).
      by rewrite !(drawn_in_tile q st2.1) by done.
    + by rewrite !(drawn_in_tile p st1.1) by done.
  - assert (∀ a, exec_draw st2 a = None) as Hnone.
    { intros a. unfold exec_draw. by rewrite Hq. }
    rewrite (Hnone atlas).
    destruct (exec_draw st1 atlas) as [a|]; cbn [mbind option_bind];
      [apply Hnone|reflexivity].
  - assert (∀ a, exec_draw st1 a = None) as Hnone.
    { intros a. unfold exec_draw. by rewrite Hp. }
    rewrite (Hnone atlas).
    destruct (exec_draw st2 atlas) as [b|]; cbn [mbind option_bind];
      [symmetry; apply Hnone|reflexivity].
  - unfold exec_draw. by rewrite Hp, Hq.
Qed.

Lemma run_permutation_gen (m m' : list (Z * Gen)) :
  m ≡ₚ m' → ∀ atlas, atlas_ok atlas → NoDup m.*1 → run m atlas = run m' atlas.
Proof.
  induction 1 as [|st m m' Hperm IH|st1 st2 m|m m' m'' H1 IH1 H2 IH2];
    intros atlas Hok Hnd.
  - done.
  - cbn [run]. destruct (exec_draw st atlas) as [a1|] eqn:Hexec;
      cbn [mbind option_bind]; [|done].
    apply IH; [by eapply exec_draw_drawn|].
    rewrite fmap_cons in Hnd. by apply NoDup_cons in Hnd as [_ ?].
  - cbn [run].
    rewrite !fmap_cons in Hnd.
    apply NoDup_cons in Hnd as [Hne _].
    assert (st2.1 ≠ st1.1) as Hne'.
    { intros Heq. apply Hne. rewrite Heq. by left. }
    pose proof (exec_draw_commute st2 st1 atlas Hok Hne') as Hcomm.
    destruct (exec_draw st2 atlas) as [a1|], (exec_draw st1 atlas) as [b1|];
      cbn [mbind option_bind] in *.
    + by rewrite Hcomm.
    + by rewrite Hcomm.
    + by rewrite <- Hcomm.
    + done.
  - rewrite IH1 by done. apply IH2; [done|]. by rewrite <- H1.
Qed.

Lemma manifest_NoDup : NoDup manifest.*1.
Proof. rewrite manifest_indices. by apply (bool_decide_unpack _). Qed.

(** X16: the final atlas does not depend on the order of the statements: any
    rearrangement of a manifest with distinct indices runs to the same buffer,
    and so does any rearrangement of the script's own manifest. *)
Theorem manifest_order_irrelevant :
  (∀ m m' atlas,
     atlas_ok atlas → NoDup m.*1 → m ≡ₚ m' → run m' atlas = run m atlas) ∧
  (∀ m', manifest ≡ₚ m' → run m' atlas0 = main).
Proof.
  split.
  - intros m m' atlas Hok Hnd Hperm. symmetry. by apply run_permutation_gen.
  - intros m' Hperm. symmetry.
    apply run_permutation_gen; [done|apply atlas0_ok|apply manifest_NoDup].
Qed.

Lemma manifest_order_irrelevant_witness :
  atlas_ok atlas0 ∧ NoDup [(5, Sand); (9, Water)].*1 ∧
  [(5, Sand); (9, Water)] ≡ₚ [(9, Water); (5, Sand)] ∧
  run [(9, Water); (5, Sand)] atlas0 = run [(5, Sand); (9, Water)] atlas0.
Proof.
  assert (atlas_ok atlas0) as Hok.
  { split; [reflexivity|]. apply Forall_replicate. reflexivity. }
  assert (NoDup [(5, Sand); (9, Water)].*1) as Hnd.
  { by apply (bool_decide_unpack _). }
  assert ([(5, Sand); (9, Water)] ≡ₚ [(9, Water); (5, Sand)]) as Hperm.
  { apply perm_swap. }
  split; [exact Hok|]. split; [exact Hnd|]. split; [exact Hperm|].
  exact (proj1 manifest_order_irrelevant _ _ atlas0 Hok Hnd Hperm).
Defined.

Lemma run_read (m : list (Z * Gen)) :
  ∀ atlas final idx g pixels px py,
    atlas_ok atlas → NoDup m.*1 → (idx, g) ∈ m →
    generate g = Some pixels → run m atlas = Some final →
    in_tile idx px py →
    Img.getpixel px py final =
      drawn pixels (tile_origin idx).1 (tile_origin idx).2
        (Img.getpixel px py atlas) px py.
Proof.
  induction m as [|st m IH];
    intros atlas final idx g pixels px py Hok Hnd Hin Hgen Hrun Htile.
  - by apply elem_of_nil in Hin.
  - rewrite fmap_cons in Hnd. apply NoDup_cons in Hnd as [Hfresh Hnd].
    cbn [run] in Hrun.
    destruct (exec_draw st atlas) as [a1|] eqn:Hexec;
      cbn [mbind option_bind] in Hrun; [|done].
    destruct (exec_draw_drawn st atlas a1 Hok Hexec) as (Hok1 & q & Hq & H1).
    apply elem_of_cons in Hin as [<-|Hin].
    + cbn [fst snd] in *. assert (q = pixels) as -> by congruence.
      destruct (run_frame m a1 final Hok1 Hrun) as [_ Hframe].
      rewrite Hframe; [apply H1|].
      intros st' Hst' Htile'. apply Hfresh.
      rewrite (in_tile_unique idx st'.1 px py Htile Htile').
      apply list_elem_of_fmap. by exists st'.
    + rewrite (IH a1 final idx g pixels px py Hok1 Hnd Hin Hgen Hrun Htile).
      rewrite H1. rewrite (drawn_in_tile q st.1); [reflexivity|].
      intros Htile'. apply Hfresh.
      rewrite (in_tile_unique st.1 idx px py Htile' Htile).
      apply list_elem_of_fmap. by exists (idx, g).
Qed.

(** X17: in the final atlas every tile the manifest draws holds the grid of
    its generator, pixel for pixel, and the atlas still has its size. *)
Theorem atlas_populated :
  ∃ final, main = Some final ∧ atlas_ok final ∧
    ∀ idx g pixels x y,
      (idx, g) ∈ manifest → generate g = Some pixels →
      0 ≤ x < 16 → 0 ≤ y < 16 →
      ∃ c, grid_get pixels x y = Some c ∧
           Img.getpixel ((tile_origin idx).1 + x) ((tile_origin idx).2 + y) final =
             Some c.
Proof.
  destruct main_total as [final Hmain]. exists final. split; [exact Hmain|].
  pose proof atlas0_ok as Hok.
  split; [exact (proj1 (run_frame manifest atlas0 final Hok Hmain))|].
  intros idx g pixels x y Hin Hgen Hx Hy.
  destruct (full_grid_get pixels x y (generate_full g pixels Hgen) Hx Hy)
    as (c & Hc & Hc').
  exists c. split; [exact Hc|].
  assert (0 ≤ idx < TILE_COUNT) as Hidx.
  { assert (idx ∈ manifest.*1) as Hi.
    { apply list_elem_of_fmap. exists (idx, g).
      split; [reflexivity|exact Hin]. }
    rewrite manifest_indices in Hi. clear -Hi. unfold TILE_COUNT.
    rewrite !elem_of_cons, elem_of_nil in Hi. lia. }
  rewrite (run_read manifest atlas0 final idx g pixels _ _ Hok manifest_NoDup
             Hin Hgen Hmain).
  - unfold drawn. rewrite (tile_in_atlas idx x y Hidx Hx Hy).
    replace ((tile_origin idx).1 + x - (tile_origin idx).1) with x by lia.
    replace ((tile_origin idx).2 + y - (tile_origin idx).2) with y by lia.
    rewrite (proj2 (Z.leb_le 0 x)), (proj2 (Z.ltb_lt x TILE_SIZE)),
      (proj2 (Z.leb_le 0 y)), (proj2 (Z.ltb_lt y TILE_SIZE))
      by (unfold TILE_SIZE; lia).
    cbn [andb].
    rewrite Hc'. apply ink_valid.
    eapply getpixel_Forall; [exact (generate_valid g pixels Hgen)|exact Hc'].
  - unfold in_tile, TILE_SIZE. lia.
Qed.

Lemma atlas_populated_witness :
  ∃ final, main = Some final ∧
    (1, Stone) ∈ manifest ∧ generate Stone = Some gen_stone ∧
    0 ≤ 0 < 16 ∧ 0 ≤ 0 < 16 ∧
    Img.getpixel ((tile_origin 1).1 + 0) ((tile_origin 1).2 + 0) final =
      Some (164, 164, 164, 255).
Proof.
  destruct atlas_populated as (final & Hmain & _ & Hpop).
  assert ((1, Stone) ∈ manifest) as Hin.
  { unfold manifest. apply elem_of_app. left.
    apply elem_of_cons. right. apply elem_of_cons. left. reflexivity. }
  exists final. split; [exact Hmain|]. split; [exact Hin|].
  split; [reflexivity|]. split; [lia|]. split; [lia|].
  destruct (Hpop 1 Stone gen_stone 0 0 Hin eq_refl ltac:(lia) ltac:(lia))
    as (c & Hc & Hget).
  rewrite Hget. rewrite <- Hc. reflexivity.
Defined.

(** A property of the initial pixels and of the generated ones holds for
    the pixels of the atlas after the run. *)
Lemma run_pixels (P : Color → Prop) (m : list (Z * Gen)) :
  ∀ atlas final,
    atlas_ok atlas →
    (∀ px py c, Img.getpixel px py atlas = Some c → P c) →
    (∀ st pixels, st ∈ m → generate st.2 = Some pixels →
       Forall (Forall P) pixels) →
    run m atlas = Some final →
    ∀ px py c, Img.getpixel px py final = Some c → P c.
Proof.
  induction m as [|st m IH]; intros atlas final Hok Hinit Hgen Hrun.
  - cbn [run] in Hrun. injection Hrun as <-. exact Hinit.
  - cbn [run] in Hrun.
    destruct (exec_draw st atlas) as [a1|] eqn:Hexec;
      cbn [mbind option_bind] in Hrun; [|done].
    destruct (exec_draw_drawn st atlas a1 Hok Hexec) as (Hok1 & q & Hq & H1).
    apply (IH a1 final Hok1); [| |exact Hrun].
    + intros px py c. rewrite H1. unfold drawn.
      destruct (_ && _); [|apply Hinit].
      destruct (Img.getpixel _ _ q) as [c'|] eqn:Hc'; [|apply Hinit].
      rewrite (ink_valid c').
      2:{ eapply getpixel_Forall; [exact (generate_valid _ _ Hq)|exact Hc']. }
      intros [= <-]. eapply getpixel_Forall; [|exact Hc'].
      apply (Hgen st); [apply elem_of_cons; by left|exact Hq].
    + intros st' pixels Hst'. apply Hgen. apply elem_of_cons. by right.
Qed.

(** X18: the 41 draws of the manifest all return, and the buffer they leave,
    the one the script then hands to [atlas.save], is a complete RGBA
    image: every coordinate of the 128 by 128 atlas holds a pixel whose four
    channels are bytes, and there is no pixel anywhere else. *)
Theorem final_atlas_valid :
  ∃ final, main = Some final ∧
    (∀ px py, 0 ≤ px < 128 → 0 ≤ py < 128 →
       ∃ c, Img.getpixel px py final = Some c ∧ valid_color c) ∧
    (∀ px py, ¬ (0 ≤ px < 128 ∧ 0 ≤ py < 128) →
       Img.getpixel px py final = None).
Proof.
  destruct main_total as [final Hmain]. exists final. split; [exact Hmain|].
  pose proof atlas0_ok as Hok.
  pose proof (proj1 (run_frame manifest atlas0 final Hok Hmain)) as Hokf.
  split.
  - intros px py Hx Hy.
    destruct (proj2 (atlas_ok_get final px py Hokf)) as [c Hc].
    { apply in_atlas_spec. split; [exact Hx|exact Hy]. }
    exists c. split; [exact Hc|].
    apply (run_pixels valid_color manifest atlas0 final Hok) with px py;
      [| |exact Hmain|exact Hc].
    + intros qx qy c0 H0.
      destruct (decide (in_atlas qx qy = true)) as [Hin|Hout].
      * apply in_atlas_spec in Hin.
        rewrite atlas0_get in H0 by (apply in_atlas_spec; exact Hin).
        injection H0 as <-. valid_channels.
      * exfalso. apply Hout. apply (atlas_ok_get atlas0 qx qy Hok).
        exists c0. exact H0.
    + intros st pixels _. apply generate_valid.
  - intros px py Hout. apply eq_None_not_Some. intros Hsome.
    apply (atlas_ok_get final px py Hokf), in_atlas_spec in Hsome.
    apply Hout. exact Hsome.
Qed.

Lemma final_atlas_valid_witness :
  ∃ final, main = Some final ∧ 0 ≤ 5 < 128 ∧ 0 ≤ 100 < 128 ∧
    ∃ c, Img.getpixel 5 100 final = Some c ∧ valid_color c.
Proof.
  destruct final_atlas_valid as (final & Hmain & Hin & _).
  exists final. split; [exact Hmain|]. split; [lia|]. split; [lia|].
  apply Hin; lia.
Defined.
